(** * golangci-lint version updater: checksum parsing, aggregation and rendering

    A shallow embedding of [tools/update_versions] (Go) and the properties
    its specification states about it.

    Go strings are byte sequences; they are modelled by [string], whose
    characters ([ascii]) are exactly the 256 byte values.  Library routines
    of Go that the program calls ([unicode/utf8], [strings], [bufio],
    [regexp], [sort], [os]) are modelled by their documented behaviour, at
    the level of detail the program can observe. *)

From Stdlib Require Import ZArith Ascii String List Lia Bool Permutation.
From Stdlib Require Import DecimalString.
From stdpp Require Import base tactics option list strings gmap sorting.

Local Open Scope Z_scope.

(** ** Results of fallible calls *)

(** A Go pair [(value, error)]: either the value with a nil error, or a
    non-nil error carrying its message. *)
Inductive result (A : Type) : Type :=
| Ok (a : A)
| Err (msg : string).
Arguments Ok {A} a.
Arguments Err {A} msg.

Definition is_Ok {A} (r : result A) : bool :=
  match r with Ok _ => true | Err _ => false end.

(** ** Bytes and strings *)

Definition byte_val (c : ascii) : Z := Z.of_N (N_of_ascii c).

Fixpoint string_drop (n : nat) (s : string) : string :=
  match n, s with
  | O, _ => s
  | S n', String _ s' => string_drop n' s'
  | S _, EmptyString => EmptyString
  end.

Fixpoint string_take (n : nat) (s : string) : string :=
  match n, s with
  | S n', String c s' => String c (string_take n' s')
  | _, _ => EmptyString
  end.

Fixpoint string_all (p : ascii -> bool) (s : string) : bool :=
  match s with
  | EmptyString => true
  | String c s' => p c && string_all p s'
  end.

Fixpoint string_repeat (c : ascii) (n : nat) : string :=
  match n with
  | O => EmptyString
  | S n' => String c (string_repeat c n')
  end.

Definition string_concat (l : list string) : string :=
  foldr String.append EmptyString l.

(** [len(s)] *)
Definition len (s : string) : nat := String.length s.

(** [strings.HasSuffix]: [len(s) >= len(suffix) && s[len(s)-len(suffix):] == suffix] *)
Definition HasSuffix (s suffix : string) : bool :=
  (len suffix <=? len s)%nat &&
  String.eqb (string_drop (len s - len suffix) s) suffix.

(** [strconv.Itoa] / the [%d] verb. *)
Definition itoa (n : Z) : string := NilZero.string_of_int (Z.to_int n).

(** ** unicode/utf8 and unicode.IsSpace *)

Module utf8.

Definition RuneError : Z := 0xFFFD.
Definition RuneSelf : Z := 0x80.

(** The [first] table joined with [acceptRanges]: what a leading byte
    announces. *)
Inductive lead : Type :=
| LeadASCII
| LeadInvalid
| LeadSeq (size : nat) (lo hi : Z).

Definition first (b : Z) : lead :=
  if b <? 0x80 then LeadASCII
  else if b <? 0xC2 then LeadInvalid
  else if b <? 0xE0 then LeadSeq 2 0x80 0xBF
  else if b =? 0xE0 then LeadSeq 3 0xA0 0xBF
  else if b <? 0xED then LeadSeq 3 0x80 0xBF
  else if b =? 0xED then LeadSeq 3 0x80 0x9F
  else if b <? 0xF0 then LeadSeq 3 0x80 0xBF
  else if b =? 0xF0 then LeadSeq 4 0x90 0xBF
  else if b <? 0xF4 then LeadSeq 4 0x80 0xBF
  else if b =? 0xF4 then LeadSeq 4 0x80 0x8F
  else LeadInvalid.

Definition locb : Z := 0x80.
Definition hicb : Z := 0xBF.
Definition maskx : Z := 0x3F.
Definition mask2 : Z := 0x1F.
Definition mask3 : Z := 0x0F.
Definition mask4 : Z := 0x07.

(** [utf8.DecodeRuneInString]: the first rune of [s] and its width in
    bytes; [(RuneError, 0)] on the empty string and [(RuneError, 1)] on
    an invalid or truncated encoding. *)
Definition DecodeRuneInString (s : string) : Z * nat :=
  match s with
  | EmptyString => (RuneError, 0%nat)
  | String c0 t0 =>
    let s0 := byte_val c0 in
    match first s0 with
    | LeadASCII => (s0, 1%nat)
    | LeadInvalid => (RuneError, 1%nat)
    | LeadSeq sz lo hi =>
      if (len s <? sz)%nat then (RuneError, 1%nat) else
      match t0 with
      | EmptyString => (RuneError, 1%nat)
      | String c1 t1 =>
        let s1 := byte_val c1 in
        if (s1 <? lo) || (hi <? s1) then (RuneError, 1%nat) else
        if (sz <=? 2)%nat then
          (Z.lor (Z.shiftl (Z.land s0 mask2) 6) (Z.land s1 maskx), 2%nat)
        else
        match t1 with
        | EmptyString => (RuneError, 1%nat)
        | String c2 t2 =>
          let s2 := byte_val c2 in
          if (s2 <? locb) || (hicb <? s2) then (RuneError, 1%nat) else
          if (sz <=? 3)%nat then
            (Z.lor (Z.lor (Z.shiftl (Z.land s0 mask3) 12)
                          (Z.shiftl (Z.land s1 maskx) 6))
                   (Z.land s2 maskx), 3%nat)
          else
          match t2 with
          | EmptyString => (RuneError, 1%nat)
          | String c3 _ =>
            let s3 := byte_val c3 in
            if (s3 <? locb) || (hicb <? s3) then (RuneError, 1%nat) else
            (Z.lor (Z.lor (Z.lor (Z.shiftl (Z.land s0 mask4) 18)
                                 (Z.shiftl (Z.land s1 maskx) 12))
                          (Z.shiftl (Z.land s2 maskx) 6))
                   (Z.land s3 maskx), 4%nat)
          end
        end
      end
    end
  end.

(** [for _, r := range s]: the runes of [s] in order, each with the bytes
    that encode it.  [fuel] bounds the number of runes; every step
    consumes at least one byte, so [len s] is always enough. *)
Fixpoint range_fuel (fuel : nat) (s : string) : list (Z * string) :=
  match fuel with
  | O => []
  | S fuel' =>
    match s with
    | EmptyString => []
    | _ =>
      let '(r, size) := DecodeRuneInString s in
      (r, string_take size s) :: range_fuel fuel' (string_drop size s)
    end
  end.

Definition range (s : string) : list (Z * string) := range_fuel (len s) s.

End utf8.

Module unicode.

(** [unicode.IsSpace]: the Latin-1 cases are listed in the function
    itself, the others come from the [White_Space] range table. *)
Definition IsSpace (r : Z) : bool :=
  if (0 <=? r) && (r <=? 0xFF) then
    (r =? 0x09) || (r =? 0x0A) || (r =? 0x0B) || (r =? 0x0C) || (r =? 0x0D)
    || (r =? 0x20) || (r =? 0x85) || (r =? 0xA0)
  else
    (r =? 0x1680) || ((0x2000 <=? r) && (r <=? 0x200A))
    || (r =? 0x2028) || (r =? 0x2029) || (r =? 0x202F) || (r =? 0x205F)
    || (r =? 0x3000).

End unicode.

Module strings.

Definition is_space_rune (x : Z * string) : bool := unicode.IsSpace x.1.

Fixpoint drop_spaces (l : list (Z * string)) : list (Z * string) :=
  match l with
  | x :: l' => if is_space_rune x then drop_spaces l' else l
  | [] => []
  end.

(** [strings.TrimSpace]: [s] without its leading and trailing white-space
    runes. *)
Definition TrimSpace (s : string) : string :=
  string_concat
    (snd <$> rev (drop_spaces (rev (drop_spaces (utf8.range s))))).

(** [strings.FieldsFunc]: the maximal runs of runes not satisfying [f].
    [cur] is the field being read, if any. *)
Fixpoint fields_go (f : Z -> bool) (cur : option string)
    (l : list (Z * string)) : list string :=
  match l with
  | [] => match cur with Some w => [w] | None => [] end
  | (r, bytes) :: l' =>
    if f r then
      match cur with
      | Some w => w :: fields_go f None l'
      | None => fields_go f None l'
      end
    else
      fields_go f (Some (match cur with Some w => w +:+ bytes | None => bytes end)) l'
  end.

Definition FieldsFunc (s : string) (f : Z -> bool) : list string :=
  fields_go f None (utf8.range s).

(** [strings.Fields]: split around runs of white space. *)
Definition Fields (s : string) : list string := FieldsFunc s unicode.IsSpace.

End strings.

(** ** regexp: the fragment of RE2 syntax the program uses *)

Module regexp.

(** The empty pattern, literals, character classes, concatenation, alternation, greedy
    one-or-more of a class, and numbered capture groups.  Every atom of
    the program's pattern is an ASCII byte or a class of ASCII bytes, and
    UTF-8 never encodes anything else with bytes below 0x80, so matching
    byte by byte agrees with Go's rune by rune matching. *)
Inductive regex : Type :=
| Eps
| Lit (c : ascii)
| Class (p : ascii -> bool)
| Cat (r1 r2 : regex)
| Alt (r1 r2 : regex)
| Plus (p : ascii -> bool)
| Group (i : nat) (r : regex).

(** A literal string as a concatenation of literals. *)
Fixpoint Str (s : string) : regex :=
  match s with
  | EmptyString => Eps
  | String c s' => Cat (Lit c) (Str s')
  end.

(** The rest of a match: position reached, input left, captures so far. *)
Definition cont : Type := nat -> string -> list string -> option (list string).

(** [p+], greedy: take as many bytes as possible, give back one at a time. *)
Fixpoint plus_go (p : ascii -> bool) (pos : nat) (rest : string)
    (k : nat -> string -> option (list string)) : option (list string) :=
  match rest with
  | EmptyString => None
  | String c rest' =>
    if p c then
      match plus_go p (S pos) rest' k with
      | Some res => Some res
      | None => k (S pos) rest'
      end
    else None
  end.

(** Backtracking match of [r] at position [pos] of [input], preferring the
    left alternative and the longer repetition (leftmost-first, as
    [regexp.MustCompile] does). *)
Fixpoint run (r : regex) (input : string) (pos : nat) (rest : string)
    (caps : list string) (k : cont) : option (list string) :=
  match r with
  | Eps => k pos rest caps
  | Lit c =>
    match rest with
    | String c' rest' => if Ascii.eqb c c' then k (S pos) rest' caps else None
    | EmptyString => None
    end
  | Class p =>
    match rest with
    | String c' rest' => if p c' then k (S pos) rest' caps else None
    | EmptyString => None
    end
  | Cat r1 r2 =>
    run r1 input pos rest caps (fun pos' rest' caps' => run r2 input pos' rest' caps' k)
  | Alt r1 r2 =>
    match run r1 input pos rest caps k with
    | Some res => Some res
    | None => run r2 input pos rest caps k
    end
  | Plus p => plus_go p pos rest (fun pos' rest' => k pos' rest' caps)
  | Group i r' =>
    run r' input pos rest caps
      (fun pos' rest' caps' =>
         k pos' rest' (<[i := string_take (pos' - pos) (string_drop pos input)]> caps'))
  end.

(** Try every starting offset from the left. *)
Fixpoint find_from (r : regex) (ngroups : nat) (input : string)
    (pos : nat) (rest : string) : option (list string) :=
  match run (Group 0 r) input pos rest (replicate (S ngroups) EmptyString)
            (fun _ _ caps => Some caps) with
  | Some caps => Some caps
  | None =>
    match rest with
    | EmptyString => None
    | String _ rest' => find_from r ngroups input (S pos) rest'
    end
  end.

(** [Regexp.FindStringSubmatch]: the leftmost match and its groups, or
    nil (the empty slice) when there is none. *)
Definition FindStringSubmatch (r : regex) (ngroups : nat) (s : string) : list string :=
  match find_from r ngroups s 0 s with
  | Some caps => caps
  | None => []
  end.

Definition is_digit (c : ascii) : bool :=
  let b := byte_val c in (0x30 <=? b) && (b <=? 0x39).

(** [\w] *)
Definition is_word (c : ascii) : bool :=
  let b := byte_val c in
  ((0x30 <=? b) && (b <=? 0x39)) || ((0x41 <=? b) && (b <=? 0x5A))
  || (b =? 0x5F) || ((0x61 <=? b) && (b <=? 0x7A)).

(** [[\d.]] *)
Definition is_digit_or_dot (c : ascii) : bool :=
  is_digit c || Ascii.eqb c "."%char.

End regexp.

(** ** bufio.Scanner with the default [ScanLines] split function *)

Module bufio.

(** [bufio.MaxScanTokenSize]: the scanner's buffer never grows beyond it. *)
Definition MaxScanTokenSize : Z := 64 * 1024.

Definition ErrTooLong : string := "bufio.Scanner: token too long".

(** The input cut at each newline byte (the newline itself dropped); an
    unterminated last line is a line, an empty remainder is not. *)
Fixpoint raw_lines_go (cur : string) (s : string) : list string :=
  match s with
  | EmptyString =>
    match cur with EmptyString => [] | _ => [String.rev cur] end
  | String c s' =>
    if Ascii.eqb c "010"%char then String.rev cur :: raw_lines_go EmptyString s'
    else raw_lines_go (String c cur) s'
  end.

Definition raw_lines (s : string) : list string := raw_lines_go EmptyString s.

(** [dropCR]: a trailing carriage return is not part of the token. *)
Definition dropCR (data : string) : string :=
  if HasSuffix data (String "013"%char EmptyString)
  then string_take (len data - 1) data else data.

(** The tokens [Scan] delivers, in order, and what [Err] reports once
    [Scan] has returned false.  A line is delivered when it fits the buffer
    together with its newline; a line of [MaxScanTokenSize] bytes or more
    fills the buffer before its end is seen, and scanning stops there with
    [ErrTooLong].  Reading from memory never fails otherwise, and end of
    input is not an error. *)
Fixpoint scan (lines : list string) : list string * option string :=
  match lines with
  | [] => ([], None)
  | l :: lines' =>
    if MaxScanTokenSize <=? Z.of_nat (len l) then ([], Some ErrTooLong)
    else let '(toks, err) := scan lines' in (dropCR l :: toks, err)
  end.

Definition Scanner (content : string) : list string * option string :=
  scan (raw_lines content).

End bufio.

(** ** checksum.go *)

(** Platform represents an OS and architecture combination. *)
Record Platform : Type := { OS : string; Arch : string }.

Global Instance Platform_eq_dec : EqDecision Platform.
Proof. solve_decision. Defined.

Global Instance Platform_countable : Countable Platform.
Proof.
  refine (inj_countable' (fun p => (OS p, Arch p))
                         (fun x => {| OS := x.1; Arch := x.2 |}) _).
  by intros [].
Defined.

(** Version represents a golangci-lint version with checksums for all
    platforms. *)
Record Version : Type := { Tag : string; Checksums : gmap Platform string }.

(** isValidSHA256 checks if a string is a valid SHA-256 hash (64 hex
    characters). *)
Definition isValidSHA256 (hash : string) : bool :=
  if negb (len hash =? 64)%nat then false
  else
    forallb
      (fun x : Z * string =>
         let c := x.1 in
         negb (((c <? 0x30) || (0x39 <? c)) && ((c <? 0x61) || (0x66 <? c))
               && ((c <? 0x41) || (0x46 <? c))))
      (utf8.range hash).

(** [golangci-lint-[\d.]+-([\w]+)-([\w]+)\.(tar\.gz|zip)] *)
Definition pattern : regexp.regex :=
  regexp.Cat (regexp.Str "golangci-lint-")
  (regexp.Cat (regexp.Plus regexp.is_digit_or_dot)
  (regexp.Cat (regexp.Lit "-")
  (regexp.Cat (regexp.Group 1 (regexp.Plus regexp.is_word))
  (regexp.Cat (regexp.Lit "-")
  (regexp.Cat (regexp.Group 2 (regexp.Plus regexp.is_word))
  (regexp.Cat (regexp.Lit ".")
     (regexp.Group 3 (regexp.Alt (regexp.Str "tar.gz") (regexp.Str "zip"))))))))).

(** ExtractPlatformFromFilename extracts OS and architecture from a filename.
    Expected format: golangci-lint-{version}-{os}-{arch}.{tar.gz|zip}. *)
Definition ExtractPlatformFromFilename (filename : string) : result Platform :=
  let matches := regexp.FindStringSubmatch pattern 3 filename in
  if negb (length matches =? 4)%nat then
    Err ("filename does not match expected pattern: " +:+ filename)
  else
    let os := nth 1 matches EmptyString in
    let arch := nth 2 matches EmptyString in
    Ok {| OS := os; Arch := arch |}.

(** One iteration of the scanning loop of [ParseChecksumFile], on the map
    built so far and the warnings logged so far. *)
Definition parse_line (acc : gmap Platform string * list string) (line : string)
    : gmap Platform string * list string :=
  let '(checksums, log) := acc in
  let line := strings.TrimSpace line in
  if String.eqb line EmptyString then acc else
  let parts := strings.Fields line in
  if (length parts <? 2)%nat then
    (checksums, log ++ ["Warning: skipping malformed line: " +:+ line])
  else
  let hash := nth 0 parts EmptyString in
  let filename := nth (length parts - 1) parts EmptyString in
  if negb (isValidSHA256 hash) then
    (checksums, log ++ ["Warning: skipping line with invalid SHA256: " +:+ line])
  else
  if negb (HasSuffix filename ".tar.gz") && negb (HasSuffix filename ".zip") then acc
  else
  match ExtractPlatformFromFilename filename with
  | Err err =>
    (checksums, log ++ ["Warning: skipping file " +:+ filename +:+ ": " +:+ err])
  | Ok platform => (<[platform := hash]> checksums, log)
  end.

(** ParseChecksumFile parses a SHA-256 checksum file and returns a map of
    platforms to checksums; the second component is what it logged. *)
Definition ParseChecksumFile (content : string)
    : result (gmap Platform string) * list string :=
  let '(tokens, scanErr) := bufio.Scanner content in
  let '(checksums, log) := foldl parse_line (∅, []) tokens in
  match scanErr with
  | Some err => (Err ("error reading checksum file: " +:+ err), log)
  | None => (Ok checksums, log)
  end.

(** ** github.go and mock_github.go *)

(** Release represents a GitHub release with basic information. *)
Record Release : Type := { TagName : string }.

(** GitHubAPI defines the interface for interacting with GitHub.  A client
    is a mutable object: each method returns the client's next state.
    [GetLatestReleases] answers [None] when the call panics. *)
Class GitHubAPI (C : Type) : Type := {
  GetLatestReleases : C -> Z -> option (result (list Release) * C);
  DownloadAsset : C -> string -> result string * C;
}.

(** MockGitHubClient is a mock implementation of GitHubAPI for testing. *)
Record MockGitHubClient : Type := {
  Releases : list Release;
  AssetContents : gmap string string;
  GetReleasesError : option string;
  DownloadError : option string;
}.

Definition NewMockGitHubClient : MockGitHubClient :=
  {| Releases := []; AssetContents := ∅;
     GetReleasesError := None; DownloadError := None |}.

(** Returns up to [count] releases; slicing with a negative [count] panics. *)
Definition Mock_GetLatestReleases (m : MockGitHubClient) (count : Z)
    : option (result (list Release) * MockGitHubClient) :=
  match GetReleasesError m with
  | Some err => Some (Err err, m)
  | None =>
    let count := if Z.of_nat (length (Releases m)) <? count
                 then Z.of_nat (length (Releases m)) else count in
    if count <? 0 then None
    else Some (Ok (take (Z.to_nat count) (Releases m)), m)
  end.

Definition Mock_DownloadAsset (m : MockGitHubClient) (url : string)
    : result string * MockGitHubClient :=
  match DownloadError m with
  | Some err => (Err err, m)
  | None =>
    match AssetContents m !! url with
    | None => (Err ("asset not found: " +:+ url), m)
    | Some content => (Ok content, m)
    end
  end.

Global Instance MockGitHubClient_API : GitHubAPI MockGitHubClient :=
  {| GetLatestReleases := Mock_GetLatestReleases;
     DownloadAsset := Mock_DownloadAsset |}.

Definition AddRelease (tag : string) (m : MockGitHubClient) : MockGitHubClient :=
  {| Releases := Releases m ++ [{| TagName := tag |}];
     AssetContents := AssetContents m;
     GetReleasesError := GetReleasesError m; DownloadError := DownloadError m |}.

Definition AddAsset (url content : string) (m : MockGitHubClient) : MockGitHubClient :=
  {| Releases := Releases m;
     AssetContents := <[url := content]> (AssetContents m);
     GetReleasesError := GetReleasesError m; DownloadError := DownloadError m |}.

(** ** generator.go: data *)

(** VersionData represents version data organized for template rendering
    (os -> arch -> sha256).  Its tag field is [Tag] in the source. *)
Record VersionData : Type := {
  VTag : string;
  ChecksumsByOS : gmap string (gmap string string);
}.

(** TemplateData holds the data for generating the Starlark file. *)
Record TemplateData : Type := {
  GeneratedAt : string;
  DefaultVersion : string;
  Versions : list VersionData;
}.

(** ** runner.go and generator.go: the parts that need no world *)

(** An error value: [None] is nil. *)
Definition error : Type := option string.

(** Config holds configuration for the version updater. *)
Record Config : Type := {
  Count : Z;
  CacheDir : string;
  OutputFile : string;
  WorkspaceRoot : string;
}.

(** Runner orchestrates the version update workflow.  Its client is the
    [client] of the world. *)
Record Runner : Type := { config : Config }.

Definition NewRunner (config : Config) : Runner := {| config := config |}.

(** The download URL of a tag's checksum file; a leading 'v' is stripped
    from the tag for the file name. *)
Definition checksums_url (tag : string) : string :=
  let version :=
    match tag with
    | String c rest => if Ascii.eqb c "v"%char then rest else tag
    | EmptyString => tag
    end in
  "https://github.com/golangci/golangci-lint/releases/download/" +:+ tag
    +:+ "/golangci-lint-" +:+ version +:+ "-checksums.txt".

(** [sort.Strings]: ascending, comparing byte by byte. *)
Definition sort_Strings (keys : list string) : list string :=
  merge_sort String.le keys.

(** How a call of [Run] ends. *)
Inductive outcome : Type :=
| Returned (err : error)
| Panicked.

Definition ErrNoVersions : string := "no versions were successfully processed".

(** ** The outside world: file system, template engine, network, log *)

(** The calls the program makes to its environment. *)
Inductive Call : Type :=
| SysMkdirAll (path : string)
| SysStat (name : string)
| SysReadFile (name : string)
| SysWriteFile (name data : string)
| SysCreate (name : string)
| SysClose (name : string)
| SysRename (oldpath newpath : string)
| SysRemove (name : string)
| TmplParseFS
| TmplExecute (name : string) (data : TemplateData)
| ApiGetLatestReleases (count : Z)
| ApiDownloadAsset (url : string).

(** A call that was made, and whether it returned a nil error. *)
Record Event : Type := { call : Call; ok : bool }.

(** What the environment does to a call: let it through, make it fail
    without effect, or (for calls that write a file) make it fail leaving
    [written] in the file. *)
Inductive Fault : Type :=
| NoFault
| Fails
| FailsPartial (written : string).

(** The file system maps the paths of regular files to their contents.
    [trace] lists the calls made so far, oldest first; [logs] is the output
    of the [log] package; [clock] is the current time in RFC 3339 form;
    [client] is the state of the GitHub client the runner points to. *)
Record World (C : Type) : Type := {
  fs : gmap string string;
  trace : list Event;
  logs : list string;
  clock : string;
  client : C;
}.
Arguments fs {C} w.
Arguments trace {C} w.
Arguments logs {C} w.
Arguments clock {C} w.
Arguments client {C} w.

Definition set_fs {C} (f : gmap string string) (w : World C) : World C :=
  {| fs := f; trace := trace w; logs := logs w; clock := clock w; client := client w |}.
Definition set_client {C} (c : C) (w : World C) : World C :=
  {| fs := fs w; trace := trace w; logs := logs w; clock := clock w; client := c |}.
Definition emit {C} (c : Call) (b : bool) (w : World C) : World C :=
  {| fs := fs w; trace := trace w ++ [{| call := c; ok := b |}];
     logs := logs w; clock := clock w; client := client w |}.
Definition add_logs {C} (msgs : list string) (w : World C) : World C :=
  {| fs := fs w; trace := trace w; logs := logs w ++ msgs;
     clock := clock w; client := client w |}.

(** The events of [w'] that [w] does not have yet. *)
Definition events_since {C} (w w' : World C) : list Event :=
  drop (length (trace w)) (trace w').

Definition ENOENT : string := "no such file or directory".
Definition EIO : string := "input/output error".

(** ** Sample data *)

Definition nl : string := String "010"%char EmptyString.

Definition hash_a : string := string_repeat "a" 64.
Definition hash_b : string := string_repeat "b" 64.
Definition hash_upper : string :=
  "AEE6E16AF4DFA60DD3C4E39536EDC905F28369FDA3C138090DB00C8233CFE450".

Definition linux_amd64 : Platform := {| OS := "linux"; Arch := "amd64" |}.
Definition darwin_amd64 : Platform := {| OS := "darwin"; Arch := "amd64" |}.

(** Two lines for the same platform. *)
Definition line_a : string := hash_a +:+ "  golangci-lint-2.6.1-linux-amd64.tar.gz".
Definition line_b : string := hash_b +:+ "  golangci-lint-2.6.1-linux-amd64.tar.gz".
Definition duplicate_manifest : string := line_a +:+ nl +:+ line_b +:+ nl.

(** A line of 65536 bytes, without a newline. *)
Definition long_line : string := string_repeat "x" (Z.to_nat 65536).

(** The two lines for one platform, followed by the long line. *)
Definition duplicate_then_long : string := duplicate_manifest +:+ long_line.

(** File names that are not of the expected shape: one with something
    before the tool name, one with something after the extension. *)
Definition prefixed_filename : string := "old-golangci-lint-2.6.1-linux-amd64.tar.gz".
Definition suffixed_filename : string := "golangci-lint-2.6.1-linux-amd64.zip.sha256".

(** Architecture and OS maps with the same keys and different values. *)
Definition archs1 : gmap string string :=
  {[ "armv7" := "hash1"; "386" := "hash2"; "arm64" := "hash3";
     "amd64" := "hash4"; "armv6" := "hash5" ]}.
Definition archs2 : gmap string string :=
  {[ "amd64" := "x"; "arm64" := "x"; "armv6" := "x"; "armv7" := "x"; "386" := "x" ]}.
Definition oses1 : gmap string (gmap string string) :=
  {[ "windows" := ∅; "darwin" := archs1; "linux" := archs2; "freebsd" := ∅ ]}.
Definition oses2 : gmap string (gmap string string) :=
  {[ "freebsd" := archs1; "linux" := ∅; "darwin" := ∅; "windows" := archs2 ]}.

Definition upper_manifest : string :=
  hash_upper +:+ "  golangci-lint-2.6.1-darwin-amd64.tar.gz" +:+ nl.

(** An environment in which no call fails, and one in which template
    execution breaks off after the first line and the cleanup fails too. *)
Definition no_fault : list Event -> Call -> Fault := fun _ _ => NoFault.

Definition fault_execute_and_remove : list Event -> Call -> Fault :=
  fun _ c =>
    match c with
    | TmplExecute _ _ => FailsPartial "# Code generated"
    | SysRemove _ => Fails
    | _ => NoFault
    end.

(** A stand-in for the template, and for [path/filepath] on clean absolute
    paths. *)
Definition render_default (data : TemplateData) : string :=
  "DEFAULT_VERSION = " +:+ DefaultVersion data.
Definition join_slash (dir name : string) : string := dir +:+ "/" +:+ name.
Definition is_abs_slash (path : string) : bool :=
  match path with
  | String "/" _ => true
  | _ => false
  end.
Definition dir_out (path : string) : string := "/out".

Definition sample_data : TemplateData :=
  {| GeneratedAt := "2025-11-11T00:00:00Z"; DefaultVersion := "v2.6.1"; Versions := [] |}.

Definition asset (tag version content : string) (m : MockGitHubClient)
    : MockGitHubClient :=
  AddAsset ("https://github.com/golangci/golangci-lint/releases/download/" +:+ tag
            +:+ "/golangci-lint-" +:+ version +:+ "-checksums.txt") content m.

(** Three releases; the checksum file of the second is not to be had, that
    of the third names no platform. *)
Definition mock_three : MockGitHubClient :=
  asset "v2.5.0" "2.5.0" ("invalid checksum file" +:+ nl)
    (asset "v2.6.1" "2.6.1" (line_a +:+ nl)
       (AddRelease "v2.5.0" (AddRelease "v2.6.0" (AddRelease "v2.6.1"
          NewMockGitHubClient)))).

(** One release, and every download fails. *)
Definition mock_offline : MockGitHubClient :=
  {| Releases := [{| TagName := "v2.6.1" |}]; AssetContents := ∅;
     GetReleasesError := None; DownloadError := Some "network timeout" |}.

Definition world_of (files : gmap string string) (c : MockGitHubClient)
    : World MockGitHubClient :=
  {| fs := files; trace := []; logs := []; clock := "2025-11-11T00:00:00Z";
     client := c |}.

(** A cache that holds the checksum file of v2.6.1, and an old output. *)
Definition cached_files : gmap string string :=
  {[ "/cache/v2.6.1.txt" := line_b +:+ nl; "/out/versions.bzl" := "old" ]}.

Definition sample_config : Config :=
  {| Count := 3; CacheDir := "/cache"; OutputFile := "/out/versions.bzl";
     WorkspaceRoot := "/ws" |}.

(** ** Notions of the specification *)

(** A byte in [0-9a-fA-F]. *)
Definition is_hex (c : ascii) : bool :=
  let b := byte_val c in
  ((0x30 <=? b) && (b <=? 0x39)) || ((0x61 <=? b) && (b <=? 0x66))
  || ((0x41 <=? b) && (b <=? 0x46)).

(** The test [isValidSHA256] applies to each rune. *)
Definition hex_rune (x : Z * string) : bool :=
  let c := x.1 in
  negb (((c <? 0x30) || (0x39 <? c)) && ((c <? 0x61) || (0x66 <? c))
        && ((c <? 0x41) || (0x46 <? c))).

(** The lines of a manifest, as the scanner delivers them. *)
Definition manifest_lines (content : string) : list string :=
  (bufio.Scanner content).1.

(** The white-space separated tokens of a line; the first is the candidate
    hash, the last the candidate file name. *)
Definition line_tokens (line : string) : list string :=
  strings.Fields (strings.TrimSpace line).

Definition line_hash (line : string) : string :=
  nth 0 (line_tokens line) EmptyString.

Definition line_filename (line : string) : string :=
  nth (length (line_tokens line) - 1) (line_tokens line) EmptyString.

(** The three filters: at least two tokens, a valid hash, a recognized
    archive file name. *)
Definition passes_filters (line : string) : bool :=
  (2 <=? length (line_tokens line))%nat
  && isValidSHA256 (line_hash line)
  && (HasSuffix (line_filename line) ".tar.gz" || HasSuffix (line_filename line) ".zip").

(** The file name of the line does not yield a platform. *)
Definition extraction_fails (line : string) : bool :=
  negb (is_Ok (ExtractPlatformFromFilename (line_filename line))).

(** What a line contributes to the mapping: it passes the filters and its
    file name yields a platform. *)
Definition line_entry (line : string) : option (Platform * string) :=
  if passes_filters line then
    match ExtractPlatformFromFilename (line_filename line) with
    | Ok platform => Some (platform, line_hash line)
    | Err _ => None
    end
  else None.

Definition add_entry (m : gmap Platform string) (line : string) : gmap Platform string :=
  match line_entry line with
  | Some (platform, hash) => <[platform := hash]> m
  | None => m
  end.

(** The warnings a line causes. *)
Definition line_warnings (line : string) : list string :=
  (parse_line (∅, []) line).2.

(** The mapping a caller holds after the call: a nil map, returned along
    with an error, has no entries. *)
Definition returned_map (r : result (gmap Platform string)) : gmap Platform string :=
  match r with
  | Ok m => m
  | Err _ => ∅
  end.

(** Every line of the input is short enough for the scanner: fewer than
    [bufio.MaxScanTokenSize] bytes before its newline. *)
Definition scans (content : string) : Prop :=
  Forall (fun l => Z.of_nat (len l) < bufio.MaxScanTokenSize) (bufio.raw_lines content).

(** The number of lines that pass the three filters, and the number of
    those whose file name fails platform extraction. *)
Definition count_pass (content : string) : nat :=
  length (List.filter passes_filters (manifest_lines content)).

Definition count_fail (content : string) : nat :=
  length (List.filter (fun l => passes_filters l && extraction_fails l)
                      (manifest_lines content)).

(** The platforms of the lines that pass the filters and extract, in file
    order, with repetitions. *)
Definition accepted_platforms (content : string) : list Platform :=
  (omap line_entry (manifest_lines content)).*1.

(** The strings a pattern matches. *)
Inductive Matches : regexp.regex -> string -> Prop :=
| MEps : Matches regexp.Eps EmptyString
| MLit c : Matches (regexp.Lit c) (String c EmptyString)
| MClass (p : ascii -> bool) c :
    p c = true -> Matches (regexp.Class p) (String c EmptyString)
| MCat r1 r2 s1 s2 :
    Matches r1 s1 -> Matches r2 s2 -> Matches (regexp.Cat r1 r2) (s1 +:+ s2)
| MAltL r1 r2 s : Matches r1 s -> Matches (regexp.Alt r1 r2) s
| MAltR r1 r2 s : Matches r2 s -> Matches (regexp.Alt r1 r2) s
| MPlus (p : ascii -> bool) s :
    s <> EmptyString -> string_all p s = true -> Matches (regexp.Plus p) s
| MGroup i r s : Matches r s -> Matches (regexp.Group i r) s.

(** A non-empty run of bytes of a class. *)
Definition run_of (p : ascii -> bool) (s : string) : Prop :=
  s <> EmptyString /\ string_all p s = true.

(** The version as the specification words it: one or more groups of
    digits, separated by dots. *)
Definition dotted_numeric (v : string) : Prop :=
  exists groups : list string,
    groups <> [] /\ Forall (run_of regexp.is_digit) groups
    /\ v = String.concat "." groups.

(** The expected shape,
    [<tool-name>-<dotted-numeric-version>-<os>-<arch>.<tar.gz|zip>],
    with nothing before or after it. *)
Definition anchored_shape (filename : string) : Prop :=
  exists ver os arch ext : string,
    filename = "golangci-lint-" +:+ ver +:+ "-" +:+ os +:+ "-" +:+ arch +:+ "." +:+ ext
    /\ dotted_numeric ver
    /\ run_of regexp.is_word os /\ run_of regexp.is_word arch
    /\ (ext = "tar.gz" \/ ext = "zip").

(** What the pattern of the code asks for: the shape anywhere inside the
    file name, the version being any run of digits and dots. *)
Definition contains_shape (filename : string) : Prop :=
  exists pre ver os arch ext post : string,
    filename = pre +:+ ("golangci-lint-" +:+ ver +:+ "-" +:+ os +:+ "-" +:+ arch
                        +:+ "." +:+ ext) +:+ post
    /\ run_of regexp.is_digit_or_dot ver
    /\ run_of regexp.is_word os /\ run_of regexp.is_word arch
    /\ (ext = "tar.gz" \/ ext = "zip").

(** The last byte of a string. *)
Fixpoint string_last (s : string) : option ascii :=
  match s with
  | EmptyString => None
  | String c EmptyString => Some c
  | String _ s' => string_last s'
  end.

(** An iteration of the loop of [processReleases] that appends nothing. *)
Definition skipped (o : option Version) : bool :=
  match o with
  | None => true
  | Some _ => false
  end.

(** The type of an order of iteration over maps. *)
Definition MapRange : Type :=
  forall (K : Type) (EqK : EqDecision K) (CK : Countable K) (V : Type),
    gmap K V -> list (K * V).

(** An order of iteration a [range] loop may follow: every entry of the map
    once, in any order. *)
Definition range_order (map_range : MapRange) : Prop :=
  forall (K : Type) (EqK : EqDecision K) (CK : Countable K) (V : Type)
         (m : gmap K V),
    map_range K EqK CK V m ≡ₚ map_to_list m.

(** The order stdpp lists a map in, and its reverse. *)
Definition range_listed : MapRange := fun K _ _ V m => map_to_list m.

Definition range_reversed : MapRange := fun K _ _ V m => reverse (map_to_list m).

(** An environment in which no directory can be made, and a client whose
    release listing fails. *)
Definition fault_mkdir : list Event -> Call -> Fault :=
  fun _ c =>
    match c with
    | SysMkdirAll _ => Fails
    | _ => NoFault
    end.

Definition mock_rate_limited : MockGitHubClient :=
  {| Releases := [{| TagName := "v2.6.1" |}]; AssetContents := ∅;
     GetReleasesError := Some "rate limit exceeded"; DownloadError := None |}.


(** ** Notions for the nested checksum map *)

(** One step of the loop of [organizePlatformsByOS]. *)
Definition organize_step (result : gmap string (gmap string string))
    (entry : Platform * string) : gmap string (gmap string string) :=
  let '(platform, hash) := entry in
  let inner := default ∅ (result !! OS platform) in
  <[OS platform := <[Arch platform := hash]> inner]> result.

(** [m[os][arch]], where it exists. *)
Definition nested_lookup (m : gmap string (gmap string string)) (os arch : string)
    : option string :=
  m !! os ≫= fun inner => inner !! arch.

(** ** Notions for well-formed manifest lines *)

(** An ASCII byte that is not white space: what a token of a manifest
    line is made of. *)
Definition is_token_byte (c : ascii) : bool :=
  (byte_val c <? 0x80) && negb (unicode.IsSpace (byte_val c)).

(** The runes of a string of ASCII bytes: one per byte. *)
Fixpoint ascii_runes (s : string) : list (Z * string) :=
  match s with
  | EmptyString => []
  | String c t => (byte_val c, String c EmptyString) :: ascii_runes t
  end.

Definition is_ascii (c : ascii) : bool := byte_val c <? 0x80.

Definition not_newline (c : ascii) : bool := negb (Ascii.eqb c "010"%char).

(** The file name of a release archive. *)
Definition archive_name (ver os arch ext : string) : string :=
  "golangci-lint-" +:+ ver +:+ "-" +:+ os +:+ "-" +:+ arch +:+ "." +:+ ext.

(** A line of a manifest: the hash, two spaces, the file name. *)
Definition manifest_line (hash filename : string) : string :=
  hash +:+ "  " +:+ filename.

(** ** The program, over a world *)

Section Updater.

(** The GitHub client in use. *)
Context {C : Type} `{GitHubAPI C}.

(** The environment decides, from the calls made so far, how the next
    call to the file system or the template engine fares. *)
Variable fault : list Event -> Call -> Fault.

(** The text [template.bzl.tmpl] produces for given data when its
    execution succeeds. *)
Variable render : TemplateData -> string.

(** The order in which a [range] loop visits the entries of a map; Go
    leaves it unspecified. *)
Variable map_range : MapRange.

(** [path/filepath]. *)
Variable filepath_IsAbs : string -> bool.
Variable filepath_Join : string -> string -> string.
Variable filepath_Dir : string -> string.

(** Computations that read and change the world. *)
Definition M (A : Type) : Type := World C -> A * World C.

#[local] Instance M_ret : MRet M := fun A (a : A) w => (a, w).
#[local] Instance M_bind : MBind M :=
  fun A B (k : A -> M B) (m : M A) w => let '(a, w') := m w in k a w'.

Definition log_Printf (msg : string) : M unit :=
  fun w => (tt, add_logs [msg] w).

(** Several lines logged by a callee. *)
Definition log_lines (msgs : list string) : M unit :=
  fun w => (tt, add_logs msgs w).

(** [time.Now().UTC().Format(time.RFC3339)] *)
Definition time_Now : M string := fun w => (clock w, w).

(** *** os *)

Definition os_MkdirAll (path : string) : M error := fun w =>
  match fault (trace w) (SysMkdirAll path) with
  | NoFault => (None, emit (SysMkdirAll path) true w)
  | _ => (Some EIO, emit (SysMkdirAll path) false w)
  end.

Definition os_Stat (name : string) : M error := fun w =>
  match fault (trace w) (SysStat name), fs w !! name with
  | NoFault, Some _ => (None, emit (SysStat name) true w)
  | NoFault, None => (Some ENOENT, emit (SysStat name) false w)
  | _, _ => (Some EIO, emit (SysStat name) false w)
  end.

Definition os_ReadFile (name : string) : M (result string) := fun w =>
  match fault (trace w) (SysReadFile name), fs w !! name with
  | NoFault, Some data => (Ok data, emit (SysReadFile name) true w)
  | NoFault, None => (Err ENOENT, emit (SysReadFile name) false w)
  | _, _ => (Err EIO, emit (SysReadFile name) false w)
  end.

Definition os_WriteFile (name data : string) : M error := fun w =>
  match fault (trace w) (SysWriteFile name data) with
  | NoFault =>
    (None, emit (SysWriteFile name data) true (set_fs (<[name := data]> (fs w)) w))
  | Fails => (Some EIO, emit (SysWriteFile name data) false w)
  | FailsPartial written =>
    (Some EIO, emit (SysWriteFile name data) false (set_fs (<[name := written]> (fs w)) w))
  end.

(** [os.Create]: creates or truncates the named file. *)
Definition os_Create (name : string) : M error := fun w =>
  match fault (trace w) (SysCreate name) with
  | NoFault =>
    (None, emit (SysCreate name) true (set_fs (<[name := EmptyString]> (fs w)) w))
  | _ => (Some EIO, emit (SysCreate name) false w)
  end.

(** [f.Close()] on a file that is still open. *)
Definition file_Close (name : string) : M error := fun w =>
  match fault (trace w) (SysClose name) with
  | NoFault => (None, emit (SysClose name) true w)
  | _ => (Some EIO, emit (SysClose name) false w)
  end.

Definition os_Rename (oldpath newpath : string) : M error := fun w =>
  match fault (trace w) (SysRename oldpath newpath), fs w !! oldpath with
  | NoFault, Some data =>
    (None, emit (SysRename oldpath newpath) true
             (set_fs (<[newpath := data]> (delete oldpath (fs w))) w))
  | NoFault, None => (Some ENOENT, emit (SysRename oldpath newpath) false w)
  | _, _ => (Some EIO, emit (SysRename oldpath newpath) false w)
  end.

Definition os_Remove (name : string) : M error := fun w =>
  match fault (trace w) (SysRemove name), fs w !! name with
  | NoFault, Some _ =>
    (None, emit (SysRemove name) true (set_fs (delete name (fs w)) w))
  | NoFault, None => (Some ENOENT, emit (SysRemove name) false w)
  | _, _ => (Some EIO, emit (SysRemove name) false w)
  end.

(** *** text/template *)

(** [template.New(...).Funcs(funcMap).ParseFS(templateFS, ...)] *)
Definition template_ParseFS : M error := fun w =>
  match fault (trace w) TmplParseFS with
  | NoFault => (None, emit TmplParseFS true w)
  | _ => (Some "template: parse error", emit TmplParseFS false w)
  end.

(** [tmpl.Execute(f, data)], [f] being the open file at [name]: the
    rendered text goes to the file; a failure may leave part of it. *)
Definition tmpl_Execute (name : string) (data : TemplateData) : M error := fun w =>
  match fault (trace w) (TmplExecute name data) with
  | NoFault =>
    (None, emit (TmplExecute name data) true
             (set_fs (<[name := render data]> (fs w)) w))
  | Fails => (Some "template: execution error", emit (TmplExecute name data) false w)
  | FailsPartial written =>
    (Some "template: execution error",
     emit (TmplExecute name data) false (set_fs (<[name := written]> (fs w)) w))
  end.

(** *** The client the runner holds *)

Definition client_GetLatestReleases (count : Z) : M (option (result (list Release))) :=
  fun w =>
    match GetLatestReleases (client w) count with
    | None => (None, emit (ApiGetLatestReleases count) false w)
    | Some (r, c') =>
      (Some r, emit (ApiGetLatestReleases count) (is_Ok r) (set_client c' w))
    end.

Definition client_DownloadAsset (url : string) : M (result string) := fun w =>
  let '(r, c') := DownloadAsset (client w) url in
  (r, emit (ApiDownloadAsset url) (is_Ok r) (set_client c' w)).

(** *** runner.go *)

(** resolveAbsolutePaths converts relative paths to absolute based on
    workspace root. *)
Definition resolveAbsolutePaths (r : Runner) : string * string :=
  let absCacheDir :=
    if filepath_IsAbs (CacheDir (config r)) then CacheDir (config r)
    else filepath_Join (WorkspaceRoot (config r)) (CacheDir (config r)) in
  let absOutputFile :=
    if filepath_IsAbs (OutputFile (config r)) then OutputFile (config r)
    else filepath_Join (WorkspaceRoot (config r)) (OutputFile (config r)) in
  (absCacheDir, absOutputFile).

(** loadFromCacheOrDownload attempts to load checksum data from cache, or
    downloads if not cached. *)
Definition loadFromCacheOrDownload (cacheFile tag : string) : M (result string) :=
  statErr ← os_Stat cacheFile ;
  match statErr with
  | None =>
    log_Printf "  Using cached checksum file" ;;
    r ← os_ReadFile cacheFile ;
    match r with
    | Err err => mret (Err ("failed to read cache file: " +:+ err))
    | Ok data => mret (Ok data)
    end
  | Some _ =>
    log_Printf "  Downloading checksum file..." ;;
    r ← client_DownloadAsset (checksums_url tag) ;
    match r with
    | Err err => mret (Err ("failed to download checksum file: " +:+ err))
    | Ok data =>
      writeErr ← os_WriteFile cacheFile data ;
      match writeErr with
      | Some err => log_Printf ("  Warning: failed to save to cache: " +:+ err)
      | None => log_Printf "  Cached checksum file"
      end ;;
      mret (Ok data)
    end
  end.

(** The body of the loop of [processReleases]: the version to append, or
    [None] where the loop continues without one. *)
Definition processRelease (release : Release) (cacheDir : string) : M (option Version) :=
  let tag := TagName release in
  if String.eqb tag EmptyString then
    log_Printf "Warning: skipping release with empty tag" ;; mret None
  else
    log_Printf ("Processing " +:+ tag +:+ "...") ;;
    let cacheFile := filepath_Join cacheDir (tag +:+ ".txt") in
    r ← loadFromCacheOrDownload cacheFile tag ;
    match r with
    | Err err => log_Printf ("  Warning: " +:+ err) ;; mret None
    | Ok checksumData =>
      let '(parsed, warnings) := ParseChecksumFile checksumData in
      log_lines warnings ;;
      match parsed with
      | Err err =>
        log_Printf ("  Warning: failed to parse checksum file: " +:+ err) ;; mret None
      | Ok checksums =>
        log_Printf ("  Found checksums for " +:+ itoa (Z.of_nat (size checksums))
                    +:+ " platforms") ;;
        mret (Some {| Tag := tag; Checksums := checksums |})
      end
    end.

Fixpoint processReleases_from (versions : list Version) (releases : list Release)
    (cacheDir : string) : M (list Version) :=
  match releases with
  | [] => mret versions
  | release :: releases' =>
    v ← processRelease release cacheDir ;
    match v with
    | None => processReleases_from versions releases' cacheDir
    | Some v => processReleases_from (versions ++ [v]) releases' cacheDir
    end
  end.

(** processReleases downloads and parses checksums for each release. *)
Definition processReleases (releases : list Release) (cacheDir : string)
    : M (list Version) :=
  processReleases_from [] releases cacheDir.

(** What the loop does with each release in turn, from the world [w] on:
    the version it appends, or [None] where it skips the release. *)
Fixpoint release_outcomes (releases : list Release) (cacheDir : string)
    (w : World C) : list (option Version) :=
  match releases with
  | [] => []
  | release :: releases' =>
    let '(v, w') := processRelease release cacheDir w in
    v :: release_outcomes releases' cacheDir w'
  end.

(** *** generator.go *)

(** GenerateStarlarkFile generates the versions.bzl file from template.
    The deferred [f.Close()] reaches the system only where the file has
    not been closed before. *)
Definition GenerateStarlarkFile (data : TemplateData) (outputPath : string) : M error :=
  parseErr ← template_ParseFS ;
  match parseErr with
  | Some err => mret (Some ("failed to parse template: " +:+ err))
  | None =>
    let tempFile := outputPath +:+ ".tmp" in
    createErr ← os_Create tempFile ;
    match createErr with
    | Some err => mret (Some ("failed to create temp file: " +:+ err))
    | None =>
      execErr ← tmpl_Execute tempFile data ;
      match execErr with
      | Some err =>
        os_Remove tempFile ;;
        file_Close tempFile ;;
        mret (Some ("failed to execute template: " +:+ err))
      | None =>
        closeErr ← file_Close tempFile ;
        match closeErr with
        | Some err =>
          os_Remove tempFile ;;
          mret (Some ("failed to close temp file: " +:+ err))
        | None =>
          renameErr ← os_Rename tempFile outputPath ;
          match renameErr with
          | Some err =>
            os_Remove tempFile ;;
            mret (Some ("failed to rename temp file: " +:+ err))
          | None => mret None
          end
        end
      end
    end
  end.

(** organizePlatformsByOS converts flat Platform map to nested
    OS -> Arch -> SHA256 map. *)
Definition organizePlatformsByOS (checksums : gmap Platform string)
    : gmap string (gmap string string) :=
  foldl
    (fun result '(platform, hash) =>
       let inner := default ∅ (result !! OS platform) in
       <[OS platform := <[Arch platform := hash]> inner]> result)
    ∅ (map_range _ _ _ _ checksums).

(** PrepareTemplateData converts Version structs to TemplateData; [now] is
    [time.Now().UTC().Format(time.RFC3339)]. *)
Definition PrepareTemplateData (now : string) (versions : list Version) : TemplateData :=
  match versions with
  | [] => {| GeneratedAt := now; DefaultVersion := EmptyString; Versions := [] |}
  | first :: _ =>
    let versionData :=
      (fun v => {| VTag := Tag v;
                   ChecksumsByOS := organizePlatformsByOS (Checksums v) |})
        <$> versions in
    {| GeneratedAt := now; DefaultVersion := Tag first; Versions := versionData |}
  end.

(** SortedArchKeys returns sorted architecture keys for deterministic
    output. *)
Definition SortedArchKeys (m : gmap string string) : list string :=
  let keys := (map_range _ _ _ _ m).*1 in
  sort_Strings keys.

(** SortedOSKeys returns sorted OS keys for deterministic output. *)
Definition SortedOSKeys (m : gmap string (gmap string string)) : list string :=
  let keys := (map_range _ _ _ _ m).*1 in
  sort_Strings keys.

(** *** Run *)

(** The second half of [Run], once the releases are known: from the log
    line "Found %d releases" to the end. *)
Definition Run_process (releases : list Release) (absCacheDir absOutputFile : string)
    : M outcome :=
  log_Printf ("Found " +:+ itoa (Z.of_nat (length releases)) +:+ " releases") ;;
  versions ← processReleases releases absCacheDir ;
  if (length versions =? 0)%nat then mret (Returned (Some ErrNoVersions))
  else
    log_Printf ("Successfully processed " +:+ itoa (Z.of_nat (length versions))
                +:+ " versions") ;;
    log_Printf "Generating Starlark file..." ;;
    now ← time_Now ;
    let templateData := PrepareTemplateData now versions in
    genErr ← GenerateStarlarkFile templateData absOutputFile ;
    match genErr with
    | Some err => mret (Returned (Some ("failed to generate output file: " +:+ err)))
    | None =>
      log_Printf ("Successfully generated " +:+ absOutputFile) ;;
      log_Printf ("Default version: " +:+ DefaultVersion templateData) ;;
      log_Printf "Done!" ;;
      mret (Returned None)
    end.

(** Run executes the version update workflow. *)
Definition Run (r : Runner) : M outcome :=
  log_Printf "golangci-lint version updater starting..." ;;
  log_Printf ("Workspace root: " +:+ WorkspaceRoot (config r)) ;;
  log_Printf ("Will process " +:+ itoa (Count (config r)) +:+ " versions") ;;
  log_Printf ("Cache directory: " +:+ CacheDir (config r)) ;;
  log_Printf ("Output file: " +:+ OutputFile (config r)) ;;
  let '(absCacheDir, absOutputFile) := resolveAbsolutePaths r in
  log_Printf ("Absolute cache directory: " +:+ absCacheDir) ;;
  log_Printf ("Absolute output file: " +:+ absOutputFile) ;;
  mkErr ← os_MkdirAll absCacheDir ;
  match mkErr with
  | Some err => mret (Returned (Some ("failed to create cache directory: " +:+ err)))
  | None =>
    let outputDir := filepath_Dir absOutputFile in
    mkErr ← os_MkdirAll outputDir ;
    match mkErr with
    | Some err => mret (Returned (Some ("failed to create output directory: " +:+ err)))
    | None =>
      log_Printf "Fetching releases from GitHub..." ;;
      got ← client_GetLatestReleases (Count (config r)) ;
      match got with
      | None => mret Panicked
      | Some (Err err) => mret (Returned (Some ("failed to fetch releases: " +:+ err)))
      | Some (Ok releases) => Run_process releases absCacheDir absOutputFile
      end
    end
  end.

(** The world in which [Run] starts processing the releases [releases] it
    has fetched, the client being left in state [c'] by the call: both
    directories made, the call recorded, the progress lines logged. *)
Definition world_after_fetch (r : Runner) (w : World C) (releases : list Release)
    (c' : C) : World C :=
  let '(absCacheDir, absOutputFile) := resolveAbsolutePaths r in
  emit (ApiGetLatestReleases (Count (config r))) true
    (set_client c'
       (add_logs ["Fetching releases from GitHub..."]
          (emit (SysMkdirAll (filepath_Dir absOutputFile)) true
             (emit (SysMkdirAll absCacheDir) true
                (add_logs
                   ["golangci-lint version updater starting...";
                    "Workspace root: " +:+ WorkspaceRoot (config r);
                    "Will process " +:+ itoa (Count (config r)) +:+ " versions";
                    "Cache directory: " +:+ CacheDir (config r);
                    "Output file: " +:+ OutputFile (config r);
                    "Absolute cache directory: " +:+ absCacheDir;
                    "Absolute output file: " +:+ absOutputFile] w))))).

(** The cache is missed: [os.Stat] on the cache file returns an error,
    because the file is not there or because the call fails. *)
Definition cache_miss (cacheFile : string) (w : World C) : Prop :=
  fs w !! cacheFile = None \/ fault (trace w) (SysStat cacheFile) <> NoFault.

End Updater.

(** * Properties *)

(** ** Bytes, runes *)

Lemma byte_val_range (c : ascii) : 0 <= byte_val c < 256.
Proof.
  unfold byte_val. pose proof (N_ascii_bounded c). lia.
Qed.

Lemma lor_ge_l (a b : Z) : 0 <= b -> a <= Z.lor a b.
Proof.
  intros Hb. pose proof (Z.sub_lor_l_same_l b a) as E.
  assert (0 <= Z.land b (Z.lnot a)) by (apply Z.land_nonneg; auto).
  lia.
Qed.

Lemma lor_ge_r (a b : Z) : 0 <= a -> b <= Z.lor a b.
Proof. intros. rewrite Z.lor_comm. by apply lor_ge_l. Qed.

Lemma land_mask_nonneg (a m : Z) : 0 <= m -> 0 <= Z.land a m.
Proof. intros. apply Z.land_nonneg. auto. Qed.

Lemma shiftl_nonneg' (a n : Z) : 0 <= a -> 0 <= Z.shiftl a n.
Proof. intros. by apply Z.shiftl_nonneg. Qed.

Lemma land_ones_mod (a n : Z) : 0 <= n -> Z.land a (Z.ones n) = a mod 2 ^ n.
Proof. apply Z.land_ones. Qed.

Lemma decode_ascii (c : ascii) (t : string) :
  byte_val c < 0x80 ->
  utf8.DecodeRuneInString (String c t) = (byte_val c, 1%nat).
Proof.
  intros Hc. unfold utf8.DecodeRuneInString, utf8.first.
  destruct (Z.ltb_spec (byte_val c) 0x80); [done | lia].
Qed.

Ltac bits_nonneg :=
  repeat first
    [ apply Z.lor_nonneg; split
    | apply shiftl_nonneg'
    | apply land_mask_nonneg;
      unfold utf8.maskx, utf8.mask2, utf8.mask3, utf8.mask4; lia ].

Ltac lor_bounds :=
  repeat match goal with
  | |- context [Z.lor ?a ?b] =>
    lazymatch goal with
    | _ : a <= Z.lor a b |- _ => fail
    | _ => idtac
    end;
    assert (a <= Z.lor a b) by (apply lor_ge_l; bits_nonneg);
    assert (b <= Z.lor a b) by (apply lor_ge_r; bits_nonneg)
  end.

(** A byte outside ASCII never starts a rune below 0x80: it decodes to
    [RuneError] or to a code point of two bytes or more. *)
Lemma decode_nonascii (c : ascii) (t : string) :
  0x80 <= byte_val c ->
  0x80 <= (utf8.DecodeRuneInString (String c t)).1.
Proof.
  intros Hc. pose proof (byte_val_range c) as Rc.
  unfold utf8.DecodeRuneInString.
  set (s0 := byte_val c) in *.
  assert (E2 : Z.land s0 utf8.mask2 = s0 mod 2 ^ 5) by (apply (land_ones_mod s0 5); lia).
  assert (E3 : Z.land s0 utf8.mask3 = s0 mod 2 ^ 4) by (apply (land_ones_mod s0 4); lia).
  assert (E4 : Z.land s0 utf8.mask4 = s0 mod 2 ^ 3) by (apply (land_ones_mod s0 3); lia).
  assert (Ex : forall b, Z.land b utf8.maskx = b mod 2 ^ 6)
    by (intros b; apply (land_ones_mod b 6); lia).
  destruct (utf8.first s0) as [| |sz lo hi] eqn:F.
  - unfold utf8.first in F. repeat case_match; simplify_eq. lia.
  - vm_compute. discriminate.
  - unfold utf8.first in F.
    repeat (case_match; simplify_eq);
      repeat match goal with
      | H : (_ <? _) = _ |- _ => apply Z.ltb_ge in H || apply Z.ltb_lt in H
      | H : (_ =? _) = _ |- _ => apply Z.eqb_eq in H || apply Z.eqb_neq in H
      | H : (_ || _) = false |- _ => apply orb_false_elim in H as [? ?]
      end; simpl; try (vm_compute; discriminate).
    all: unfold utf8.locb, utf8.hicb in *.
    all: lor_bounds.
    all: rewrite ?E2, ?E3, ?E4, ?Ex, ?Z.shiftl_mul_pow2 in * by lia.
    all: Z.div_mod_to_equations; lia.
Qed.

(** ** isValidSHA256 *)

Ltac bool_lia :=
  repeat match goal with
  | |- context [Z.ltb ?a ?b] => destruct (Z.ltb_spec a b)
  | |- context [Z.leb ?a ?b] => destruct (Z.leb_spec a b)
  end; simpl; try reflexivity; try lia.

Lemma hex_rune_byte (c : ascii) (bytes : string) :
  hex_rune (byte_val c, bytes) = is_hex c.
Proof. unfold hex_rune, is_hex. simpl. bool_lia. Qed.

Lemma hex_rune_high (r : Z) (bytes : string) :
  0x80 <= r -> hex_rune (r, bytes) = false.
Proof. intros. unfold hex_rune. simpl. bool_lia. Qed.

Lemma is_hex_high (c : ascii) : 0x80 <= byte_val c -> is_hex c = false.
Proof. intros. unfold is_hex. simpl. bool_lia. Qed.

Lemma range_fuel_cons (fuel : nat) (c : ascii) (t : string) :
  utf8.range_fuel (S fuel) (String c t) =
  (let '(r, size) := utf8.DecodeRuneInString (String c t) in
   (r, string_take size (String c t))
     :: utf8.range_fuel fuel (string_drop size (String c t))).
Proof. reflexivity. Qed.

Lemma range_fuel_hex (fuel : nat) (s : string) :
  (len s <= fuel)%nat ->
  forallb hex_rune (utf8.range_fuel fuel s) = string_all is_hex s.
Proof.
  revert s. induction fuel as [|fuel IH]; intros [|c t] Hlen; simpl in Hlen;
    try reflexivity; try lia.
  rewrite range_fuel_cons.
  destruct (Z.lt_ge_cases (byte_val c) 0x80) as [Hc|Hc].
  - rewrite decode_ascii by done. cbn [string_drop string_all forallb].
    rewrite hex_rune_byte, IH; [done | unfold len in *; lia].
  - pose proof (decode_nonascii c t Hc) as Hr.
    destruct (utf8.DecodeRuneInString (String c t)) as [r size].
    cbn [forallb string_all]. simpl in Hr.
    by rewrite hex_rune_high, is_hex_high.
Qed.

(** [isValidSHA256] accepts exactly the strings of 64 bytes, each a
    hexadecimal digit of either case. *)
Lemma isValidSHA256_spec (hash : string) :
  isValidSHA256 hash = true <-> len hash = 64%nat /\ string_all is_hex hash = true.
Proof.
  unfold isValidSHA256.
  change (forallb _ (utf8.range hash)) with (forallb hex_rune (utf8.range hash)).
  unfold utf8.range. rewrite range_fuel_hex by done.
  destruct (Nat.eqb_spec (len hash) 64); simpl; intuition congruence.
Qed.

(** ** ParseChecksumFile, line by line *)

Lemma Fields_empty : strings.Fields EmptyString = [].
Proof. reflexivity. Qed.

Lemma parse_line_fst (m : gmap Platform string) (log : list string) (line : string) :
  (parse_line (m, log) line).1 = add_entry m line.
Proof.
  unfold parse_line, add_entry, line_entry, passes_filters, line_filename,
    line_hash, line_tokens.
  destruct (String.eqb_spec (strings.TrimSpace line) EmptyString) as [E|E].
  { rewrite E, Fields_empty. reflexivity. }
  set (parts := strings.Fields (strings.TrimSpace line)).
  destruct (Nat.ltb_spec (length parts) 2) as [L|L].
  { destruct (Nat.leb_spec 2 (length parts)); [lia | reflexivity]. }
  destruct (Nat.leb_spec 2 (length parts)); [| lia]. simpl.
  destruct (isValidSHA256 (nth 0 parts EmptyString)); simpl; [| reflexivity].
  destruct (HasSuffix _ ".tar.gz"), (HasSuffix _ ".zip"); simpl;
    try reflexivity;
    destruct (ExtractPlatformFromFilename _); reflexivity.
Qed.

Lemma parse_line_snd (m : gmap Platform string) (log : list string) (line : string) :
  (parse_line (m, log) line).2 = log ++ line_warnings line.
Proof.
  unfold line_warnings, parse_line.
  repeat case_match; simpl; rewrite ?app_nil_r; reflexivity.
Qed.

Lemma foldl_parse_line (lines : list string) (m : gmap Platform string)
    (log : list string) :
  foldl parse_line (m, log) lines =
  (foldl add_entry m lines, log ++ concat (line_warnings <$> lines)).
Proof.
  revert m log. induction lines as [|line lines IH]; intros m log.
  - simpl. by rewrite app_nil_r.
  - cbn [foldl]. rewrite fmap_cons. cbn [concat].
    rewrite (surjective_pairing (parse_line (m, log) line)).
    rewrite parse_line_fst, parse_line_snd, IH. by rewrite <- app_assoc.
Qed.

(** The result of [ParseChecksumFile] in terms of the scanner and of what
    each line contributes. *)
Lemma ParseChecksumFile_unfold (content : string) :
  ParseChecksumFile content =
  (match (bufio.Scanner content).2 with
   | Some err => Err ("error reading checksum file: " +:+ err)
   | None => Ok (foldl add_entry ∅ (manifest_lines content))
   end,
   concat (line_warnings <$> manifest_lines content)).
Proof.
  unfold ParseChecksumFile, manifest_lines.
  destruct (bufio.Scanner content) as [tokens scanErr]. simpl.
  rewrite foldl_parse_line. simpl. by destruct scanErr.
Qed.

(** An accepted line is not warned about. *)
Lemma line_entry_no_warning (line : string) :
  is_Some (line_entry line) -> line_warnings line = [].
Proof.
  unfold line_entry, line_warnings, parse_line, passes_filters, line_filename,
    line_hash, line_tokens.
  intros [e He]. revert He.
  destruct (String.eqb_spec (strings.TrimSpace line) EmptyString) as [E|E].
  { rewrite E, Fields_empty. done. }
  set (parts := strings.Fields (strings.TrimSpace line)).
  destruct (Nat.ltb_spec (length parts) 2) as [L|L].
  { destruct (Nat.leb_spec 2 (length parts)); [lia | done]. }
  destruct (Nat.leb_spec 2 (length parts)); [| lia].
  destruct (isValidSHA256 (nth 0 parts EmptyString)); simpl; [| done].
  destruct (HasSuffix _ ".tar.gz"), (HasSuffix _ ".zip"); simpl; try done;
    destruct (ExtractPlatformFromFilename _); done.
Qed.

(** *** The map the loop builds *)

Lemma foldl_add_entry_lookup (lines : list string) (m : gmap Platform string)
    (p : Platform) (h : string) :
  foldl add_entry m lines !! p = Some h ->
  m !! p = Some h \/ exists line, line ∈ lines /\ line_entry line = Some (p, h).
Proof.
  revert m. induction lines as [|line lines IH]; intros m; simpl; [auto|].
  intros Hl. apply IH in Hl as [Hl | (l & Hin & Hl)].
  - unfold add_entry in Hl. destruct (line_entry line) as [[p' h']|] eqn:E; [|auto].
    destruct (decide (p' = p)) as [->|Hne].
    + rewrite lookup_insert_eq in Hl. simplify_eq. right. exists line.
      split; [left | done].
    + rewrite lookup_insert_ne in Hl by done. auto.
  - right. exists l. split; [by right | done].
Qed.

Lemma foldl_add_entry_other (lines : list string) (m : gmap Platform string)
    (p : Platform) :
  (forall l h, l ∈ lines -> line_entry l <> Some (p, h)) ->
  foldl add_entry m lines !! p = m !! p.
Proof.
  revert m. induction lines as [|line lines IH]; intros m Hno; simpl; [done|].
  rewrite IH by (intros l h Hin; apply Hno; by right).
  unfold add_entry. destruct (line_entry line) as [[p' h']|] eqn:E; [|done].
  destruct (decide (p' = p)) as [->|Hne]; [| by rewrite lookup_insert_ne].
  exfalso. eapply (Hno line h'); [left | done].
Qed.

Lemma foldl_add_entry_last (l1 l2 : list string) (line : string)
    (m : gmap Platform string) (p : Platform) (h : string) :
  line_entry line = Some (p, h) ->
  (forall l h', l ∈ l2 -> line_entry l <> Some (p, h')) ->
  foldl add_entry m (l1 ++ line :: l2) !! p = Some h.
Proof.
  intros He Hno. rewrite foldl_app. simpl.
  rewrite foldl_add_entry_other by done.
  unfold add_entry at 1. rewrite He. apply lookup_insert_eq.
Qed.

(** The platforms of the accepted lines, in file order. *)
Lemma foldl_add_entry_dom (lines : list string) (m : gmap Platform string) :
  dom (foldl add_entry m lines) =
  dom m ∪ list_to_set ((omap line_entry lines).*1).
Proof.
  revert m. induction lines as [|line lines IH]; intros m; simpl.
  - by rewrite (right_id_L ∅ (∪)).
  - rewrite IH. unfold add_entry.
    destruct (line_entry line) as [[p h]|]; simpl; [| done].
    rewrite dom_insert_L, (comm_L (∪) {[p]} (dom m)).
    by rewrite <- (assoc_L (∪)).
Qed.

(** ** The scanner *)

Lemma scan_no_error (lines : list string) :
  (bufio.scan lines).2 = None <->
  Forall (fun l => Z.of_nat (len l) < bufio.MaxScanTokenSize) lines.
Proof.
  induction lines as [|l lines IH]; simpl.
  - split; [constructor | done].
  - destruct (Z.leb_spec bufio.MaxScanTokenSize (Z.of_nat (len l))) as [L|L]; simpl.
    + split; [done |]. inversion 1; subst. lia.
    + destruct (bufio.scan lines) as [toks err]. simpl in *.
      rewrite IH. split; [by constructor | by inversion 1].
Qed.

Lemma scan_tokens (lines : list string) :
  Forall (fun l => Z.of_nat (len l) < bufio.MaxScanTokenSize) lines ->
  (bufio.scan lines).1 = bufio.dropCR <$> lines.
Proof.
  induction 1 as [|l lines L _ IH]; simpl; [done|].
  destruct (Z.leb_spec bufio.MaxScanTokenSize (Z.of_nat (len l))); [lia|].
  destruct (bufio.scan lines) as [toks err]. simpl in *. by rewrite IH.
Qed.

(** [ParseChecksumFile] returns a mapping exactly on the inputs that scan,
    and an error on the others. *)
Lemma ParseChecksumFile_ok_iff (content : string) :
  is_Ok (ParseChecksumFile content).1 = true <-> scans content.
Proof.
  rewrite ParseChecksumFile_unfold. unfold scans, bufio.Scanner.
  rewrite <- scan_no_error. simpl.
  destruct (bufio.scan (bufio.raw_lines content)).2; simpl; split; done.
Qed.

Lemma ParseChecksumFile_scans (content : string) :
  scans content ->
  (ParseChecksumFile content).1 = Ok (foldl add_entry ∅ (manifest_lines content)).
Proof.
  intros Hs. rewrite ParseChecksumFile_unfold. simpl.
  apply scan_no_error in Hs. unfold bufio.Scanner. by rewrite Hs.
Qed.

Lemma foldl_add_entry_none (lines : list string) (m : gmap Platform string) :
  (forall l, l ∈ lines -> line_entry l = None) ->
  foldl add_entry m lines = m.
Proof.
  revert m. induction lines as [|l lines IH]; intros m Hn; simpl; [done|].
  rewrite IH by (intros; apply Hn; by right).
  unfold add_entry. by rewrite (Hn l) by left.
Qed.

(** ** Counting entries *)

Lemma line_entry_Some_iff (line : string) :
  is_Some (line_entry line) <->
  passes_filters line = true /\ extraction_fails line = false.
Proof.
  unfold line_entry, extraction_fails.
  destruct (passes_filters line); [| split; [by intros [? ?] | by intros [? _]]].
  destruct (ExtractPlatformFromFilename (line_filename line)); simpl.
  - split; [done | eauto].
  - split; [by intros [? ?] | by intros [_ ?]].
Qed.

Lemma length_omap_line_entry (lines : list string) :
  length (omap line_entry lines) =
  (length (List.filter passes_filters lines)
   - length (List.filter (fun l => passes_filters l && extraction_fails l) lines))%nat
  /\ (length (List.filter (fun l => passes_filters l && extraction_fails l) lines)
      <= length (List.filter passes_filters lines))%nat.
Proof.
  induction lines as [|l lines [IH1 IH2]]; [done|].
  cbn [omap list_omap List.filter].
  pose proof (line_entry_Some_iff l) as Hl.
  destruct (passes_filters l) eqn:Hp, (extraction_fails l) eqn:Hf;
    destruct (line_entry l) as [e|]; cbn [andb length]; try lia.
  - destruct Hl as [[_ ?] _]; [eauto | done].
  - destruct Hl as [_ [? ?]]; done.
  - destruct Hl as [[? _] _]; [eauto | done].
  - destruct Hl as [[? _] _]; [eauto | done].
Qed.

Lemma length_remove_dups_le {A} `{EqDecision A} (l : list A) :
  (length (remove_dups l) <= length l)%nat.
Proof.
  induction l as [|x l IH]; simpl; [done|].
  destruct (decide_rel elem_of x l); simpl; lia.
Qed.

Lemma length_remove_dups_eq {A} `{EqDecision A} (l : list A) :
  length (remove_dups l) = length l <-> NoDup l.
Proof.
  induction l as [|x l IH]; simpl.
  - split; [constructor | done].
  - pose proof (length_remove_dups_le l).
    destruct (decide_rel elem_of x l) as [Hin|Hin]; simpl.
    + split; [lia |]. rewrite NoDup_cons. by intros [? _].
    + rewrite NoDup_cons, <- IH. split; [intros; split; [done | lia] | intros [_ ?]; lia].
Qed.

Lemma size_foldl_add_entry (lines : list string) :
  size (foldl add_entry ∅ lines) = length (remove_dups (omap line_entry lines).*1).
Proof.
  rewrite <- size_dom, foldl_add_entry_dom, dom_empty_L, (left_id_L ∅ (∪)).
  rewrite <- (size_list_to_set (C := gset Platform) (remove_dups _))
    by apply NoDup_remove_dups.
  f_equal. apply set_eq. intros p.
  by rewrite !elem_of_list_to_set, elem_of_remove_dups.
Qed.

Lemma scan_error_iff (lines : list string) :
  is_Some (bufio.scan lines).2 <->
  Exists (fun l => bufio.MaxScanTokenSize <= Z.of_nat (len l)) lines.
Proof.
  induction lines as [|l lines IH]; simpl.
  - split; [by intros [? ?] | by inversion 1].
  - destruct (Z.leb_spec bufio.MaxScanTokenSize (Z.of_nat (len l))) as [L|L]; simpl.
    + split; [by left | eauto].
    + destruct (bufio.scan lines) as [toks err]. simpl in *.
      rewrite IH. split; [by right | inversion 1; [lia | done]].
Qed.

(** ** The claims about ParseChecksumFile *)

(** C3, as the code has it: on a manifest that scans, the number of entries
    of the returned mapping is the number of distinct platforms among the
    lines that pass the three filters and extract.  The count of the claim
    (passing lines minus extraction failures) is the number of such lines;
    the mapping has at most that many entries, and exactly that many when
    no two of the lines name the same platform. *)
Theorem C3_entries_are_distinct_platforms (content : string) :
  scans content ->
  size (returned_map (ParseChecksumFile content).1)
    = length (remove_dups (accepted_platforms content))
  /\ length (accepted_platforms content) = (count_pass content - count_fail content)%nat
  /\ (size (returned_map (ParseChecksumFile content).1)
      <= count_pass content - count_fail content)%nat
  /\ (size (returned_map (ParseChecksumFile content).1)
        = (count_pass content - count_fail content)%nat
      <-> NoDup (accepted_platforms content)).
Proof.
  intros Hs. rewrite (ParseChecksumFile_scans content Hs). simpl.
  unfold accepted_platforms, count_pass, count_fail.
  destruct (length_omap_line_entry (manifest_lines content)) as [Hlen _].
  rewrite size_foldl_add_entry, <- Hlen, length_fmap.
  repeat split.
  - rewrite <- (length_fmap fst (omap _ _)). apply length_remove_dups_le.
  - rewrite <- (length_fmap fst (omap _ _)). apply length_remove_dups_eq.
  - rewrite <- (length_fmap fst (omap _ _)). apply length_remove_dups_eq.
Qed.

(** C4, as the code has it: [ParseChecksumFile] returns an error exactly
    when some line of the input has 65536 bytes or more, the scanner's token
    limit; bytes held in memory can reach it.  On every other input it
    returns a mapping and no error, the empty mapping when the input is
    empty or every line is skipped. *)
Theorem C4_error_iff_line_too_long (content : string) :
  (is_Ok (ParseChecksumFile content).1 = false <->
   Exists (fun l => bufio.MaxScanTokenSize <= Z.of_nat (len l)) (bufio.raw_lines content))
  /\ (scans content ->
      (exists m, (ParseChecksumFile content).1 = Ok m)
      /\ ((forall l, l ∈ manifest_lines content -> line_entry l = None) ->
          (ParseChecksumFile content).1 = Ok ∅))
  /\ ParseChecksumFile EmptyString = (Ok ∅, []).
Proof.
  split; [| split].
  - rewrite <- scan_error_iff, ParseChecksumFile_unfold. unfold bufio.Scanner. simpl.
    destruct (bufio.scan (bufio.raw_lines content)).2; simpl.
    + split; eauto.
    + split; [done | by intros [? ?]].
  - intros Hs. rewrite (ParseChecksumFile_scans content Hs). split; [eauto|].
    intros Hnone. by rewrite foldl_add_entry_none.
  - reflexivity.
Qed.

(** C6: every hash in the returned mapping has exactly 64 bytes, each a
    hexadecimal digit of either case, and is the first token of a line of
    the manifest, byte for byte, so in the case the manifest has it. *)
Theorem C6_stored_hashes_are_valid (content : string) (p : Platform) (h : string) :
  returned_map (ParseChecksumFile content).1 !! p = Some h ->
  len h = 64%nat
  /\ string_all is_hex h = true
  /\ isValidSHA256 h = true
  /\ exists line, line ∈ manifest_lines content /\ line_hash line = h.
Proof.
  rewrite ParseChecksumFile_unfold. simpl.
  destruct (bufio.Scanner content).2; simpl; [by rewrite lookup_empty|].
  intros Hl. apply foldl_add_entry_lookup in Hl as [Hl | (line & Hin & He)];
    [by rewrite lookup_empty in Hl|].
  assert (Hv : isValidSHA256 h = true /\ line_hash line = h).
  { unfold line_entry, passes_filters in He.
    destruct (2 <=? _)%nat; [|done].
    destruct (isValidSHA256 (line_hash line)) eqn:Hv; [|done]. simpl in He.
    destruct (_ || _); [|done].
    destruct (ExtractPlatformFromFilename _); simplify_eq. done. }
  destruct Hv as [Hv Hh]. pose proof Hv as Hv'. apply isValidSHA256_spec in Hv' as [? ?].
  repeat split; try done. eauto.
Qed.

(** C10, as the code has it: on a manifest that scans, a platform that
    several accepted lines name is mapped to the hash of the last of them;
    nothing is logged for an accepted line, overwritten or not, so the log
    holds the warnings of the other lines only, and no error is returned. *)
Theorem C10_last_line_wins (content : string) (l1 l2 : list string)
    (line : string) (p : Platform) (h : string) :
  scans content ->
  manifest_lines content = l1 ++ line :: l2 ->
  line_entry line = Some (p, h) ->
  (forall l h', l ∈ l2 -> line_entry l <> Some (p, h')) ->
  (exists m, (ParseChecksumFile content).1 = Ok m /\ m !! p = Some h)
  /\ (forall l, l ∈ manifest_lines content -> is_Some (line_entry l) ->
      line_warnings l = [])
  /\ (ParseChecksumFile content).2
     = concat (line_warnings <$>
                 List.filter (fun l => negb (bool_decide (is_Some (line_entry l))))
                             (manifest_lines content)).
Proof.
  intros Hs Hlines He Hlast. split; [| split].
  - rewrite (ParseChecksumFile_scans content Hs), Hlines.
    eexists. split; [done|]. by apply foldl_add_entry_last.
  - intros l _. apply line_entry_no_warning.
  - rewrite ParseChecksumFile_unfold. cbn [snd].
    clear. generalize (manifest_lines content). intros ls.
    induction ls as [|l ls IH]; [done|].
    rewrite fmap_cons. cbn [concat List.filter].
    destruct (bool_decide_reflect (is_Some (line_entry l))) as [Hsome|Hnone];
      cbn [negb].
    + rewrite line_entry_no_warning by done. exact IH.
    + rewrite fmap_cons. cbn [concat]. by rewrite IH.
Qed.


(** ** Regular expressions: the matcher against what a pattern denotes *)

Lemma string_app_cons (c : ascii) (a b : string) :
  String c a +:+ b = String c (a +:+ b).
Proof. reflexivity. Qed.

Lemma string_app_nil_l (a : string) : EmptyString +:+ a = a.
Proof. reflexivity. Qed.

Lemma string_app_assoc (a b c : string) : (a +:+ b) +:+ c = a +:+ (b +:+ c).
Proof.
  induction a as [|x a IH]; [done|]. by rewrite !string_app_cons, IH.
Qed.

Lemma string_app_nil_r (a : string) : a +:+ EmptyString = a.
Proof.
  induction a as [|x a IH]; [done|]. by rewrite string_app_cons, IH.
Qed.

Lemma len_app (a b : string) : len (a +:+ b) = (len a + len b)%nat.
Proof.
  unfold len. induction a as [|x a IH]; [done|].
  rewrite string_app_cons. simpl. by rewrite IH.
Qed.

Lemma string_all_app (p : ascii -> bool) (a b : string) :
  string_all p (a +:+ b) = string_all p a && string_all p b.
Proof.
  induction a as [|x a IH]; [done|].
  rewrite string_app_cons. simpl. by rewrite IH, andb_assoc.
Qed.

Lemma plus_go_sound (p : ascii -> bool) (rest : string) (pos : nat)
    (k : nat -> string -> option (list string)) (res : list string) :
  regexp.plus_go p pos rest k = Some res ->
  exists s1 rest', rest = s1 +:+ rest' /\ run_of p s1
                   /\ k (pos + len s1)%nat rest' = Some res.
Proof.
  revert pos. induction rest as [|c rest IH]; intros pos; simpl; [done|].
  destruct (p c) eqn:Hc; [|done].
  destruct (regexp.plus_go p (S pos) rest k) as [res'|] eqn:Hgo.
  - intros [= ->]. apply IH in Hgo as (s1 & rest' & -> & [Hne Hall] & Hk).
    exists (String c s1), rest'. repeat split; try done.
    + simpl. by rewrite Hc, Hall.
    + simpl. by rewrite Nat.add_succ_r.
  - intros Hk. exists (String c EmptyString), rest. repeat split; try done.
    + simpl. by rewrite Hc.
    + simpl. by rewrite Nat.add_1_r.
Qed.

Lemma plus_go_complete (p : ascii -> bool) (s1 rest' : string) (pos : nat)
    (k : nat -> string -> option (list string)) :
  run_of p s1 ->
  is_Some (k (pos + len s1)%nat rest') ->
  is_Some (regexp.plus_go p pos (s1 +:+ rest') k).
Proof.
  intros [Hne Hall]. revert pos Hne Hall.
  induction s1 as [|c t IH]; intros pos Hne Hall Hk; [done|].
  rewrite string_app_cons. simpl in *.
  apply andb_true_iff in Hall as [Hc Hall]. rewrite Hc.
  destruct (regexp.plus_go p (S pos) (t +:+ rest') k) eqn:Hgo; [eauto|].
  destruct t as [|c' t'].
  - rewrite string_app_nil_l in *. by rewrite Nat.add_1_r in Hk.
  - exfalso. assert (Hs : is_Some (regexp.plus_go p (S pos) (String c' t' +:+ rest') k)).
    { apply IH; [done | done |]. by rewrite Nat.add_succ_r in Hk. }
    rewrite Hgo in Hs. by destruct Hs.
Qed.

(** Whatever the matcher hands to its continuation is the input left after
    a string the pattern denotes; the captures keep their number. *)
Lemma run_sound (r : regexp.regex) (input : string) (pos : nat) (rest : string)
    (caps : list string) (k : regexp.cont) (res : list string) :
  regexp.run r input pos rest caps k = Some res ->
  exists s1 rest' caps',
    rest = s1 +:+ rest' /\ Matches r s1 /\ length caps' = length caps
    /\ k (pos + len s1)%nat rest' caps' = Some res.
Proof.
  revert pos rest caps k.
  induction r as [|c|p|r1 IH1 r2 IH2|r1 IH1 r2 IH2|p|i r IH];
    intros pos rest caps k; simpl.
  - intros Hk. exists EmptyString, rest, caps.
    rewrite Nat.add_0_r. repeat split; try done. constructor.
  - destruct rest as [|c' rest]; [done|].
    destruct (Ascii.eqb_spec c c') as [<-|]; [|done].
    intros Hk. exists (String c EmptyString), rest, caps.
    simpl. rewrite Nat.add_1_r. repeat split; try done. constructor.
  - destruct rest as [|c' rest]; [done|].
    destruct (p c') eqn:Hp; [|done].
    intros Hk. exists (String c' EmptyString), rest, caps.
    simpl. rewrite Nat.add_1_r. repeat split; try done. by constructor.
  - intros Hrun. apply IH1 in Hrun as (s1 & rest1 & caps1 & -> & M1 & L1 & Hrun).
    apply IH2 in Hrun as (s2 & rest2 & caps2 & -> & M2 & L2 & Hk).
    exists (s1 +:+ s2), rest2, caps2.
    rewrite string_app_assoc, len_app, Nat.add_assoc.
    repeat split; try done; [by constructor | congruence].
  - destruct (regexp.run r1 input pos rest caps k) as [res'|] eqn:H1.
    + intros [= ->]. apply IH1 in H1 as (s1 & rest1 & caps1 & -> & M1 & L1 & Hk).
      exists s1, rest1, caps1. repeat split; try done. by apply MAltL.
    + intros H2. apply IH2 in H2 as (s1 & rest1 & caps1 & -> & M1 & L1 & Hk).
      exists s1, rest1, caps1. repeat split; try done. by apply MAltR.
  - intros Hgo. apply plus_go_sound in Hgo as (s1 & rest' & -> & [Hne Hall] & Hk).
    exists s1, rest', caps. repeat split; try done. by constructor.
  - intros Hrun. apply IH in Hrun as (s1 & rest1 & caps1 & -> & M1 & L1 & Hk).
    eexists s1, rest1, _. split; [done|]. split; [by constructor|].
    split; [| exact Hk]. by rewrite length_insert.
Qed.

(** The matcher finds a match whenever the input starts with a string the
    pattern denotes and the continuation accepts what follows. *)
Lemma run_complete (r : regexp.regex) (s1 : string) :
  Matches r s1 ->
  forall (input : string) (pos : nat) (rest' : string) (caps : list string)
         (k : regexp.cont),
    (forall caps', is_Some (k (pos + len s1)%nat rest' caps')) ->
    is_Some (regexp.run r input pos (s1 +:+ rest') caps k).
Proof.
  induction 1 as [|c|p c Hp|r1 r2 s1 s2 _ IH1 _ IH2|r1 r2 s _ IH|r1 r2 s _ IH
                  |p s Hne Hall|i r s _ IH];
    intros input pos rest' caps k Hk; simpl.
  - specialize (Hk caps). by rewrite Nat.add_0_r in Hk.
  - rewrite Ascii.eqb_refl. specialize (Hk caps). by rewrite Nat.add_1_r in Hk.
  - rewrite Hp. specialize (Hk caps). by rewrite Nat.add_1_r in Hk.
  - rewrite string_app_assoc. apply IH1. intros caps1. apply IH2.
    intros caps2. specialize (Hk caps2).
    by rewrite len_app, Nat.add_assoc in Hk.
  - destruct (regexp.run r1 input pos (s +:+ rest') caps k) eqn:H1; [eauto|].
    exfalso. specialize (IH input pos rest' caps k Hk). rewrite H1 in IH.
    by destruct IH.
  - destruct (regexp.run r1 input pos (s +:+ rest') caps k); [eauto|].
    by apply IH.
  - apply plus_go_complete; [done | apply Hk].
  - apply IH. intros caps'. apply Hk.
Qed.

Lemma find_from_eq (r : regexp.regex) (n : nat) (input rest : string) (pos : nat) :
  regexp.find_from r n input pos rest =
  match regexp.run (regexp.Group 0 r) input pos rest (replicate (S n) EmptyString)
                   (fun _ _ caps => Some caps) with
  | Some caps => Some caps
  | None =>
    match rest with
    | EmptyString => None
    | String _ rest' => regexp.find_from r n input (S pos) rest'
    end
  end.
Proof. destruct rest; reflexivity. Qed.

Lemma find_from_sound (r : regexp.regex) (n : nat) (input rest : string) (pos : nat)
    (caps : list string) :
  regexp.find_from r n input pos rest = Some caps ->
  length caps = S n
  /\ exists pre s1 post, rest = pre +:+ s1 +:+ post /\ Matches r s1.
Proof.
  revert pos. induction rest as [|c rest IH]; intros pos; rewrite find_from_eq;
    destruct (regexp.run _ _ _ _ _ _) as [caps0|] eqn:E; try done.
  - intros [= ->].
    apply run_sound in E as (s1 & rest' & caps' & Hr & M & L & [= ->]).
    inversion M; subst. rewrite length_replicate in L. split; [done|].
    exists EmptyString, s1, rest'. by split.
  - intros [= ->].
    apply run_sound in E as (s1 & rest' & caps' & Hr & M & L & [= ->]).
    inversion M; subst. rewrite length_replicate in L. split; [done|].
    exists EmptyString, s1, rest'. by split.
  - intros Hf. apply IH in Hf as (L & pre & s1 & post & -> & M). split; [done|].
    exists (String c pre), s1, post. by split.
Qed.

Lemma find_from_complete (r : regexp.regex) (n : nat) (input : string)
    (pre s1 post : string) (pos : nat) :
  Matches r s1 ->
  is_Some (regexp.find_from r n input pos (pre +:+ s1 +:+ post)).
Proof.
  intros M. revert pos. induction pre as [|c pre IH]; intros pos;
    rewrite find_from_eq.
  - assert (Hrun : is_Some (regexp.run (regexp.Group 0 r) input pos (s1 +:+ post)
                              (replicate (S n) EmptyString)
                              (fun _ _ caps => Some caps))).
    { apply run_complete; [by constructor | eauto]. }
    rewrite string_app_nil_l. destruct Hrun as [caps Hc]. rewrite Hc. eauto.
  - rewrite string_app_cons. destruct (regexp.run _ _ _ _ _ _); [eauto|]. apply IH.
Qed.

(** [FindStringSubmatch] returns the groups of a match, one more than the
    pattern has, exactly when the pattern matches somewhere in the input. *)
Lemma FindStringSubmatch_length (r : regexp.regex) (n : nat) (s : string) :
  length (regexp.FindStringSubmatch r n s) = S n <->
  exists pre s1 post, s = pre +:+ s1 +:+ post /\ Matches r s1.
Proof.
  unfold regexp.FindStringSubmatch.
  destruct (regexp.find_from r n s 0 s) as [caps|] eqn:E.
  - apply find_from_sound in E as [L Hm]. by split.
  - split; [done|]. intros (pre & s1 & post & Hs & M).
    pose proof (find_from_complete r n s pre s1 post 0%nat M) as Hc.
    rewrite <- Hs, E in Hc. by destruct Hc.
Qed.

(** *** The pattern of ExtractPlatformFromFilename *)

Lemma Matches_Str (s x : string) : Matches (regexp.Str s) x <-> x = s.
Proof.
  revert x. induction s as [|c s IH]; intros x; simpl.
  - split; [by inversion 1 | intros ->; constructor].
  - split.
    + inversion 1 as [| | |r1 r2 s1 s2 M1 M2| | | |]; subst.
      inversion M1; subst. apply IH in M2 as ->. done.
    + intros ->. change (String c s) with (String c EmptyString +:+ s).
      constructor; [constructor | by apply IH].
Qed.

Lemma Matches_Plus (p : ascii -> bool) (x : string) :
  Matches (regexp.Plus p) x <-> run_of p x.
Proof. split; [by inversion 1 | intros [? ?]; by constructor]. Qed.

Lemma Matches_pattern (x : string) :
  Matches pattern x <->
  exists ver os arch ext : string,
    x = "golangci-lint-" +:+ ver +:+ "-" +:+ os +:+ "-" +:+ arch +:+ "." +:+ ext
    /\ run_of regexp.is_digit_or_dot ver
    /\ run_of regexp.is_word os /\ run_of regexp.is_word arch
    /\ (ext = "tar.gz" \/ ext = "zip").
Proof.
  unfold pattern. split.
  - intros M.
    repeat match goal with
    | H : Matches (regexp.Cat _ _) _ |- _ => inversion H; subst; clear H
    | H : Matches (regexp.Group _ _) _ |- _ => inversion H; subst; clear H
    | H : Matches (regexp.Lit _) _ |- _ => inversion H; subst; clear H
    | H : Matches regexp.Eps _ |- _ => inversion H; subst; clear H
    | H : Matches (regexp.Str _) _ |- _ => apply Matches_Str in H; subst
    | H : Matches (regexp.Plus _) _ |- _ => apply Matches_Plus in H
    end.
    match goal with
    | H : Matches (regexp.Alt _ _) ?e |- _ =>
      assert (He : e = "tar.gz" \/ e = "zip")
        by (inversion H as [| | | |? ? ? M|? ? ? M| |]; subst;
            [apply (Matches_Str "tar.gz") in M | apply (Matches_Str "zip") in M];
            auto)
    end.
    eexists _, _, _, _. split; [reflexivity | eauto].
  - intros (ver & os & arch & ext & -> & Hv & Ho & Ha & He).
    constructor; [by apply Matches_Str|].
    constructor; [by apply Matches_Plus|].
    change ("-" +:+ os +:+ "-" +:+ arch +:+ "." +:+ ext)
      with (String "-" EmptyString +:+ (os +:+ String "-" EmptyString
              +:+ (arch +:+ String "." EmptyString +:+ ext))).
    constructor; [constructor|].
    constructor; [constructor; by apply Matches_Plus|].
    constructor; [constructor|].
    constructor; [constructor; by apply Matches_Plus|].
    constructor; [constructor|].
    constructor. destruct He as [-> | ->];
      [apply MAltL | apply MAltR]; by apply (Matches_Str _ _).
Qed.

Lemma ExtractPlatformFromFilename_ok_iff (filename : string) :
  is_Ok (ExtractPlatformFromFilename filename) = true <-> contains_shape filename.
Proof.
  unfold ExtractPlatformFromFilename, contains_shape.
  pose proof (FindStringSubmatch_length pattern 3 filename) as Hlen.
  destruct (Nat.eqb_spec (length (regexp.FindStringSubmatch pattern 3 filename)) 4)
    as [E|E]; simpl.
  - split; [intros _ | done].
    apply Hlen in E as (pre & s1 & post & -> & M).
    apply Matches_pattern in M as (ver & os & arch & ext & -> & ?).
    by exists pre, ver, os, arch, ext, post.
  - split; [done|]. intros (pre & ver & os & arch & ext & post & -> & Hc).
    exfalso. apply E, Hlen. eexists pre, _, post. split; [done|].
    apply Matches_pattern. by exists ver, os, arch, ext.
Qed.

Lemma string_all_digit_or_dot (s : string) :
  string_all regexp.is_digit s = true -> string_all regexp.is_digit_or_dot s = true.
Proof.
  induction s as [|c s IH]; simpl; [done|].
  intros [Hc Hs]%andb_true_iff. rewrite IH by done.
  unfold regexp.is_digit_or_dot. by rewrite Hc.
Qed.

Lemma app_not_empty (a b : string) : a <> EmptyString -> a +:+ b <> EmptyString.
Proof. by destruct a. Qed.

(** A version in the specification's sense is a run of digits and dots. *)
Lemma dotted_numeric_run (v : string) :
  dotted_numeric v -> run_of regexp.is_digit_or_dot v.
Proof.
  intros (groups & Hne & Hall & ->).
  induction Hall as [|g groups [Hg Hd] Hall IH]; [done|].
  destruct groups as [|g' groups].
  - simpl. split; [done | by apply string_all_digit_or_dot].
  - destruct IH as [IH1 IH2]; [done|].
    change (String.concat "." (g :: g' :: groups))
      with (g +:+ "." +:+ String.concat "." (g' :: groups)).
    split; [by apply app_not_empty|].
    rewrite !string_all_app, IH2, string_all_digit_or_dot by done. done.
Qed.

Lemma anchored_contains (filename : string) :
  anchored_shape filename -> contains_shape filename.
Proof.
  intros (ver & os & arch & ext & -> & Hv & Ho & Ha & He).
  exists EmptyString, ver, os, arch, ext, EmptyString.
  rewrite string_app_nil_l, string_app_nil_r.
  split; [done|]. split; [by apply dotted_numeric_run | done].
Qed.

(** C5, as the code has it: the pattern is searched for, not anchored.
    Extraction succeeds exactly when the file name contains, anywhere,
    [golangci-lint-] followed by a run of digits and dots, a dash, a run of
    word characters (the OS), a dash, a run of word characters (the
    architecture), a dot and [tar.gz] or [zip]; so it succeeds on every file
    name of the expected shape, and a name without such a part fails with
    the extraction error. *)
Theorem C5_extraction_succeeds_iff_contains_shape (filename : string) :
  (is_Ok (ExtractPlatformFromFilename filename) = true <-> contains_shape filename)
  /\ (anchored_shape filename -> is_Ok (ExtractPlatformFromFilename filename) = true)
  /\ (~ contains_shape filename ->
      ExtractPlatformFromFilename filename
      = Err ("filename does not match expected pattern: " +:+ filename)).
Proof.
  split; [apply ExtractPlatformFromFilename_ok_iff | split].
  - intros Ha. by apply ExtractPlatformFromFilename_ok_iff, anchored_contains.
  - intros Hn. rewrite <- ExtractPlatformFromFilename_ok_iff in Hn.
    unfold ExtractPlatformFromFilename in *.
    by destruct (negb _).
Qed.

Lemma app_not_empty_r (a b : string) : b <> EmptyString -> a +:+ b <> EmptyString.
Proof. destruct a; [done | by rewrite string_app_cons]. Qed.

Lemma string_last_app (a b : string) :
  b <> EmptyString -> string_last (a +:+ b) = string_last b.
Proof.
  intros Hb. induction a as [|c a IH]; [done|].
  rewrite string_app_cons. simpl. rewrite IH.
  destruct (a +:+ b) eqn:E; [| done].
  destruct a; [by rewrite string_app_nil_l in E | done].
Qed.

(** ** Sorted keys *)

Lemma sort_Strings_sorted (keys : list string) : Sorted String.le (sort_Strings keys).
Proof. apply (Sorted_merge_sort String.le). Qed.

Lemma sort_Strings_perm (keys : list string) : sort_Strings keys ≡ₚ keys.
Proof. apply (merge_sort_Permutation String.le). Qed.

(** Sorting does not depend on the order the keys come in. *)
Lemma sort_Strings_unique (keys1 keys2 : list string) :
  keys1 ≡ₚ keys2 -> sort_Strings keys1 = sort_Strings keys2.
Proof.
  intros Hp. apply (Sorted_unique String.le); try apply sort_Strings_sorted.
  by rewrite !sort_Strings_perm.
Qed.

Lemma sorted_keys_spec {V} (map_range : MapRange)
    (m : gmap string V) :
  range_order map_range ->
  Sorted String.le (sort_Strings (map_range _ _ _ _ m).*1)
  /\ NoDup (sort_Strings (map_range _ _ _ _ m).*1)
  /\ (forall k, k ∈ sort_Strings (map_range _ _ _ _ m).*1 <-> k ∈ dom m).
Proof.
  intros Hr. split; [apply sort_Strings_sorted|].
  assert (Hp : sort_Strings (map_range _ _ _ _ m).*1 ≡ₚ (map_to_list m).*1).
  { rewrite sort_Strings_perm. by rewrite (Hr string _ _ V m). }
  split.
  - rewrite Hp. apply NoDup_fst_map_to_list.
  - intros k. rewrite Hp, elem_of_dom, list_elem_of_fmap. split.
    + intros ([k' v] & -> & Hin). apply elem_of_map_to_list in Hin. eauto.
    + intros [v Hv]. exists (k, v). split; [done | by apply elem_of_map_to_list].
Qed.

Lemma keys_perm_of_dom {V W} (m : gmap string V) (m' : gmap string W) :
  dom m = dom m' -> (map_to_list m).*1 ≡ₚ (map_to_list m').*1.
Proof.
  intros Hd. apply NoDup_Permutation; try apply NoDup_fst_map_to_list.
  intros k. rewrite !list_elem_of_fmap. split.
  - intros ([k' v] & -> & Hin). apply elem_of_map_to_list in Hin.
    assert (Hk : k' ∈ dom m') by (rewrite <- Hd; apply elem_of_dom; eauto).
    apply elem_of_dom in Hk as [w Hw]. exists (k', w).
    split; [done | by apply elem_of_map_to_list].
  - intros ([k' v] & -> & Hin). apply elem_of_map_to_list in Hin.
    assert (Hk : k' ∈ dom m) by (rewrite Hd; apply elem_of_dom; eauto).
    apply elem_of_dom in Hk as [w Hw]. exists (k', w).
    split; [done | by apply elem_of_map_to_list].
Qed.

(** C2: whatever order the range loops follow, [SortedArchKeys] and
    [SortedOSKeys] return the keys of the map, each once, in ascending
    byte-wise order; two maps with the same keys give the same sequence,
    also under two different iteration orders. *)
Theorem C2_sorted_keys_are_the_keys_ascending
    (range1 range2 : MapRange)
    (archs archs' : gmap string string)
    (oses oses' : gmap string (gmap string string)) :
  range_order range1 -> range_order range2 ->
  (Sorted String.le (SortedArchKeys range1 archs)
   /\ NoDup (SortedArchKeys range1 archs)
   /\ (forall k, k ∈ SortedArchKeys range1 archs <-> k ∈ dom archs))
  /\ (Sorted String.le (SortedOSKeys range1 oses)
      /\ NoDup (SortedOSKeys range1 oses)
      /\ (forall k, k ∈ SortedOSKeys range1 oses <-> k ∈ dom oses))
  /\ (dom archs = dom archs' ->
      SortedArchKeys range1 archs = SortedArchKeys range2 archs')
  /\ (dom oses = dom oses' ->
      SortedOSKeys range1 oses = SortedOSKeys range2 oses').
Proof.
  intros H1 H2. unfold SortedArchKeys, SortedOSKeys.
  split; [by apply sorted_keys_spec|]. split; [by apply sorted_keys_spec|].
  split; intros Hd; apply sort_Strings_unique.
  - rewrite (H1 string _ _ _ archs), (H2 string _ _ _ archs').
    by apply keys_perm_of_dom.
  - rewrite (H1 string _ _ _ oses), (H2 string _ _ _ oses').
    by apply keys_perm_of_dom.
Qed.

(** ** PrepareTemplateData *)

(** C9: the default version is the tag of the first version of the list,
    whatever its checksums are, and so never the different tag of a later
    one. *)
Theorem C9_default_version_is_first_tag
    (map_range : MapRange)
    (now : string) (v : Version) (vs : list Version) :
  DefaultVersion (PrepareTemplateData map_range now (v :: vs)) = Tag v
  /\ (forall v', v' ∈ vs -> Tag v' <> Tag v ->
      DefaultVersion (PrepareTemplateData map_range now (v :: vs)) <> Tag v').
Proof. split; [reflexivity | intros v' _ Hne; simpl; congruence]. Qed.

(** ** What ExtractPlatformFromFilename returns *)

Lemma string_drop_S (pos : nat) (input : string) (c : ascii) (rest : string) :
  string_drop pos input = String c rest -> string_drop (S pos) input = rest.
Proof.
  revert input. induction pos as [|pos IH]; intros input; simpl.
  - by intros ->.
  - destruct input as [|c' input]; [done|]. apply IH.
Qed.

Lemma string_drop_len (pos : nat) (input s rest : string) :
  string_drop pos input = s +:+ rest -> string_drop (pos + len s) input = rest.
Proof.
  revert pos. induction s as [|c s IH]; intros pos.
  - rewrite string_app_nil_l. simpl. by rewrite Nat.add_0_r.
  - rewrite string_app_cons. intros Hd. apply string_drop_S in Hd.
    apply IH in Hd. simpl. by rewrite Nat.add_succ_r.
Qed.

Lemma string_take_len (s rest : string) : string_take (len s) (s +:+ rest) = s.
Proof.
  induction s as [|c s IH].
  - rewrite string_app_nil_l. by destruct rest.
  - rewrite string_app_cons. simpl. by rewrite IH.
Qed.

(** What a group captures when it matched [s] at [pos]. *)
Lemma capture_eq (pos n : nat) (input s rest : string) :
  string_drop pos input = s +:+ rest -> n = (pos + len s)%nat ->
  string_take (n - pos) (string_drop pos input) = s.
Proof.
  intros -> ->. replace (pos + len s - pos)%nat with (len s) by lia.
  apply string_take_len.
Qed.

(** Greedy repetition takes the whole run when the rest of the match
    succeeds after it. *)
Lemma plus_go_greedy (p : ascii -> bool) (s rest : string) (pos : nat)
    (k : nat -> string -> option (list string)) (res : list string) :
  run_of p s ->
  match rest with
  | String c _ => p c = false
  | EmptyString => True
  end ->
  k (pos + len s)%nat rest = Some res ->
  regexp.plus_go p pos (s +:+ rest) k = Some res.
Proof.
  intros [Hne Hall] Hstop. revert pos Hne Hall.
  induction s as [|c t IH]; intros pos Hne Hall Hk; [done|].
  rewrite string_app_cons. simpl in *.
  apply andb_true_iff in Hall as [Hc Hall]. rewrite Hc.
  destruct t as [|c' t'].
  - rewrite string_app_nil_l. rewrite Nat.add_1_r in Hk.
    destruct rest as [|c0 rest0]; simpl; [done|]. by rewrite Hstop.
  - rewrite (IH (S pos)); [done | done | done |].
    by rewrite Nat.add_succ_r in Hk.
Qed.

Lemma run_pattern_shape (input : string) (pos : nat) (ver os arch ext post : string) :
  run_of regexp.is_digit_or_dot ver ->
  run_of regexp.is_word os -> run_of regexp.is_word arch ->
  ext = "tar.gz" \/ ext = "zip" ->
  string_drop pos input
  = "golangci-lint-" +:+ ver +:+ "-" +:+ os +:+ "-" +:+ arch +:+ "." +:+ ext +:+ post ->
  regexp.run (regexp.Group 0 pattern) input pos (string_drop pos input)
    (replicate 4 EmptyString) (fun _ _ caps => Some caps)
  = Some ["golangci-lint-" +:+ ver +:+ "-" +:+ os +:+ "-" +:+ arch +:+ "." +:+ ext;
          os; arch; ext].
Proof.
  intros Hver Hos Harch Hext Hd.
  pose proof Hd as Hd0.
  rewrite Hd. rewrite !string_app_cons, !string_app_nil_l in Hd |- *.
  do 14 (apply string_drop_S in Hd).
  unfold pattern. cbn [regexp.run regexp.Str Ascii.eqb Bool.eqb].
  rewrite (plus_go_greedy _ ver _ _ _
             ["golangci-lint-" +:+ ver +:+ "-" +:+ os +:+ "-" +:+ arch +:+ "." +:+ ext;
              os; arch; ext] Hver); [done | done |].
  apply string_drop_len in Hd. set (p1 := (_ + len ver)%nat) in *.
  pose proof Hd as Hos_at. apply string_drop_S in Hos_at.
  cbn [Ascii.eqb Bool.eqb].
  rewrite (plus_go_greedy _ os _ _ _
             ["golangci-lint-" +:+ ver +:+ "-" +:+ os +:+ "-" +:+ arch +:+ "." +:+ ext;
              os; arch; ext] Hos); [done | done |].
  pose proof Hos_at as Hd2. apply string_drop_len in Hd2.
  set (p2 := (S p1 + len os)%nat) in *.
  pose proof Hd2 as Harch_at. apply string_drop_S in Harch_at.
  cbn [Ascii.eqb Bool.eqb].
  rewrite (plus_go_greedy _ arch _ _ _
             ["golangci-lint-" +:+ ver +:+ "-" +:+ os +:+ "-" +:+ arch +:+ "." +:+ ext;
              os; arch; ext] Harch); [done | done |].
  pose proof Harch_at as Hd3. apply string_drop_len in Hd3.
  set (p3 := (S p2 + len arch)%nat) in *.
  pose proof Hd3 as Hext_at. apply string_drop_S in Hext_at.
  cbn [Ascii.eqb Bool.eqb].
  rewrite (capture_eq (S p1) p2 input os _ Hos_at eq_refl).
  rewrite (capture_eq (S p2) p3 input arch _ Harch_at eq_refl).
  assert (Hwhole : forall n, n = (S p3 + len ext)%nat ->
            string_take (n - pos) (string_drop pos input)
            = "golangci-lint-" +:+ ver +:+ "-" +:+ os +:+ "-" +:+ arch +:+ "." +:+ ext).
  { intros n ->. rewrite Hd0.
    set (whole := "golangci-lint-" +:+ ver +:+ "-" +:+ os +:+ "-" +:+ arch +:+ "." +:+ ext).
    replace (S p3 + len ext - pos)%nat with (len whole)
      by (subst whole p3 p2 p1; rewrite !len_app; simpl; lia).
    replace ("golangci-lint-" +:+ ver +:+ "-" +:+ os +:+ "-" +:+ arch +:+ "." +:+ ext +:+ post)
      with (whole +:+ post) by (subst whole; by rewrite !string_app_assoc).
    apply string_take_len. }
  destruct Hext as [-> | ->].
  - rewrite !string_app_cons, ?string_app_nil_l in Hext_at |- *.
    cbn [regexp.run regexp.Str Ascii.eqb Bool.eqb].
    rewrite (capture_eq (S p3) _ input "tar.gz" post);
      [| by rewrite Hext_at, !string_app_cons, !string_app_nil_l | simpl; lia].
    rewrite Hwhole by (simpl; lia). reflexivity.
  - rewrite !string_app_cons, ?string_app_nil_l in Hext_at |- *.
    cbn [regexp.run regexp.Str Ascii.eqb Bool.eqb].
    rewrite (capture_eq (S p3) _ input "zip" post);
      [| by rewrite Hext_at, !string_app_cons, !string_app_nil_l | simpl; lia].
    rewrite Hwhole by (simpl; lia). reflexivity.
Qed.

Lemma ExtractPlatformFromFilename_shape (ver os arch ext post : string) :
  run_of regexp.is_digit_or_dot ver ->
  run_of regexp.is_word os -> run_of regexp.is_word arch ->
  ext = "tar.gz" \/ ext = "zip" ->
  ExtractPlatformFromFilename
    ("golangci-lint-" +:+ ver +:+ "-" +:+ os +:+ "-" +:+ arch +:+ "." +:+ ext +:+ post)
  = Ok {| OS := os; Arch := arch |}.
Proof.
  intros Hver Hos Harch Hext.
  unfold ExtractPlatformFromFilename, regexp.FindStringSubmatch.
  rewrite find_from_eq.
  set (input := "golangci-lint-" +:+ ver +:+ "-" +:+ os +:+ "-" +:+ arch +:+ "." +:+ ext +:+ post).
  pose proof (run_pattern_shape input 0 ver os arch ext post Hver Hos Harch Hext eq_refl)
    as Hrun.
  change (string_drop 0 input) with input in Hrun.
  change (replicate 4 EmptyString) with (replicate (S 3) EmptyString) in Hrun.
  rewrite Hrun. reflexivity.
Qed.

(** A file name that starts with the expected shape yields exactly the OS
    and the architecture written in it: for
    [golangci-lint-<ver>-<os>-<arch>.<ext>] followed by anything, [ver] a
    run of digits and dots, [os] and [arch] runs of word characters and
    [ext] one of [tar.gz] and [zip], [ExtractPlatformFromFilename] returns
    the platform [(os, arch)]. *)
Theorem ExtractPlatformFromFilename_well_shaped (ver os arch ext post : string) :
  run_of regexp.is_digit_or_dot ver ->
  run_of regexp.is_word os -> run_of regexp.is_word arch ->
  ext = "tar.gz" \/ ext = "zip" ->
  ExtractPlatformFromFilename
    ("golangci-lint-" +:+ ver +:+ "-" +:+ os +:+ "-" +:+ arch +:+ "." +:+ ext +:+ post)
  = Ok {| OS := os; Arch := arch |}.
Proof. apply ExtractPlatformFromFilename_shape. Qed.

(** ** Parsing a manifest in two parts *)

Lemma raw_lines_go_app (a b cur : string) :
  bufio.raw_lines_go cur ((a +:+ nl) +:+ b)
  = bufio.raw_lines_go cur (a +:+ nl) ++ bufio.raw_lines b.
Proof.
  revert cur. induction a as [|c a IH]; intros cur.
  - rewrite string_app_nil_l. unfold nl. rewrite string_app_cons, string_app_nil_l.
    reflexivity.
  - rewrite !string_app_cons. cbn [bufio.raw_lines_go].
    destruct (Ascii.eqb c "010"); rewrite IH; reflexivity.
Qed.

Lemma raw_lines_app (a b : string) :
  bufio.raw_lines (a +:+ nl +:+ b) = bufio.raw_lines (a +:+ nl) ++ bufio.raw_lines b.
Proof. rewrite <- string_app_assoc. apply raw_lines_go_app. Qed.

Lemma scan_app (l1 l2 : list string) :
  (bufio.scan l1).2 = None ->
  bufio.scan (l1 ++ l2) = ((bufio.scan l1).1 ++ (bufio.scan l2).1, (bufio.scan l2).2).
Proof.
  induction l1 as [|l l1 IH]; simpl.
  - intros _. by destruct (bufio.scan l2).
  - destruct (bufio.MaxScanTokenSize <=? Z.of_nat (len l)); [done|].
    destruct (bufio.scan l1) as [toks err]. simpl. intros ->.
    rewrite IH by done. reflexivity.
Qed.

Lemma foldl_add_entry_union (lines : list string) (m : gmap Platform string) :
  foldl add_entry m lines = foldl add_entry ∅ lines ∪ m.
Proof.
  induction lines as [|l lines IH] using rev_ind.
  - simpl. by rewrite (left_id_L ∅ (∪)).
  - rewrite !foldl_app. simpl. rewrite IH. unfold add_entry.
    destruct (line_entry l) as [[p h]|]; [|done].
    by rewrite insert_union_l.
Qed.

(** A manifest can be parsed in parts: when the part up to a newline
    parses, parsing the whole gives the entries of both parts, those of the
    second part replacing those of the first for the same platform, and
    the warnings of both in order; it fails exactly as the second part
    does on its own. *)
Theorem ParseChecksumFile_of_two_parts (a b : string) (ma : gmap Platform string) :
  (ParseChecksumFile (a +:+ nl)).1 = Ok ma ->
  (ParseChecksumFile (a +:+ nl +:+ b)).1
  = match (ParseChecksumFile b).1 with
    | Ok mb => Ok (mb ∪ ma)
    | Err err => Err err
    end
  /\ (ParseChecksumFile (a +:+ nl +:+ b)).2
     = (ParseChecksumFile (a +:+ nl)).2 ++ (ParseChecksumFile b).2.
Proof.
  rewrite !ParseChecksumFile_unfold. unfold manifest_lines, bufio.Scanner.
  rewrite raw_lines_app. cbn [fst snd].
  destruct (bufio.scan (bufio.raw_lines (a +:+ nl))).2 eqn:Ea; [done|].
  intros [= <-]. rewrite scan_app by done. cbn [fst snd].
  split.
  - destruct (bufio.scan (bufio.raw_lines b)).2; [done|].
    rewrite foldl_app. by rewrite foldl_add_entry_union.
  - by rewrite fmap_app, concat_app.
Qed.

(** ** A well-formed manifest line *)

Lemma string_all_impl (p q : ascii -> bool) (s : string) :
  (forall c, p c = true -> q c = true) ->
  string_all p s = true -> string_all q s = true.
Proof.
  intros Hpq. induction s as [|c s IH]; simpl; [done|].
  intros [Hc Hs]%andb_true_iff. by rewrite (Hpq c Hc), IH.
Qed.

Lemma is_hex_token (c : ascii) : is_hex c = true -> is_token_byte c = true.
Proof. by destruct c as [[] [] [] [] [] [] [] []]. Qed.

Lemma is_word_token (c : ascii) : regexp.is_word c = true -> is_token_byte c = true.
Proof. by destruct c as [[] [] [] [] [] [] [] []]. Qed.

Lemma is_digit_or_dot_token (c : ascii) :
  regexp.is_digit_or_dot c = true -> is_token_byte c = true.
Proof. by destruct c as [[] [] [] [] [] [] [] []]. Qed.

Lemma is_token_ascii (c : ascii) : is_token_byte c = true -> is_ascii c = true.
Proof. unfold is_token_byte, is_ascii. by intros [? _]%andb_true_iff. Qed.

Lemma is_token_not_newline (c : ascii) :
  is_token_byte c = true -> not_newline c = true.
Proof. by destruct c as [[] [] [] [] [] [] [] []]. Qed.

Lemma range_fuel_ascii (fuel : nat) (s : string) :
  (len s <= fuel)%nat -> string_all is_ascii s = true ->
  utf8.range_fuel fuel s = ascii_runes s.
Proof.
  revert s. induction fuel as [|fuel IH]; intros [|c t] Hlen; simpl in Hlen;
    try reflexivity; try lia.
  cbn [string_all]. intros [Hc Ht]%andb_true_iff.
  rewrite range_fuel_cons. unfold is_ascii in Hc. apply Z.ltb_lt in Hc.
  rewrite decode_ascii by done. cbn [string_drop string_take ascii_runes].
  rewrite IH; [done | unfold len in *; lia | done].
Qed.

Lemma range_ascii (s : string) :
  string_all is_ascii s = true -> utf8.range s = ascii_runes s.
Proof. apply range_fuel_ascii. done. Qed.

Lemma ascii_runes_app (a b : string) :
  ascii_runes (a +:+ b) = ascii_runes a ++ ascii_runes b.
Proof.
  induction a as [|c a IH]; [by rewrite string_app_nil_l|].
  rewrite string_app_cons. simpl. by rewrite IH.
Qed.

Lemma string_concat_ascii_runes (s : string) :
  string_concat (snd <$> ascii_runes s) = s.
Proof.
  induction s as [|c s IH]; [done|].
  cbn [ascii_runes fmap list_fmap snd]. unfold string_concat in *. cbn [foldr].
  rewrite IH. by rewrite string_app_cons, string_app_nil_l.
Qed.

Lemma drop_spaces_token (c : ascii) (l : list (Z * string)) (bytes : string) :
  is_token_byte c = true ->
  strings.drop_spaces ((byte_val c, bytes) :: l) = (byte_val c, bytes) :: l.
Proof.
  unfold is_token_byte. intros [_ Hs]%andb_true_iff.
  cbn [strings.drop_spaces]. unfold strings.is_space_rune. cbn [fst].
  by destruct (unicode.IsSpace (byte_val c)).
Qed.

Lemma drop_spaces_rev_token (w : string) (l : list (Z * string)) :
  w <> EmptyString -> string_all is_token_byte w = true ->
  strings.drop_spaces (rev (l ++ ascii_runes w)) = rev (l ++ ascii_runes w).
Proof.
  revert l. induction w as [|c t IH]; intros l Hne; [done|].
  cbn [string_all ascii_runes]. intros [Hc Ht]%andb_true_iff.
  destruct t as [|c' t'].
  - cbn [ascii_runes]. rewrite rev_app_distr. cbn [rev app].
    by apply drop_spaces_token.
  - rewrite (cons_middle _ l), app_assoc. by apply IH.
Qed.

(** Trimming changes nothing in two tokens separated by white space. *)
Lemma TrimSpace_tokens (w1 sep w2 : string) :
  w1 <> EmptyString -> string_all is_token_byte w1 = true ->
  w2 <> EmptyString -> string_all is_token_byte w2 = true ->
  string_all is_ascii sep = true ->
  strings.TrimSpace (w1 +:+ sep +:+ w2) = w1 +:+ sep +:+ w2.
Proof.
  intros Hne1 H1 Hne2 H2 Hsep. unfold strings.TrimSpace.
  rewrite range_ascii.
  2:{ rewrite !string_all_app, Hsep.
      rewrite (string_all_impl _ _ w1 is_token_ascii H1).
      by rewrite (string_all_impl _ _ w2 is_token_ascii H2). }
  set (s := w1 +:+ sep +:+ w2).
  assert (Hhead : strings.drop_spaces (ascii_runes s) = ascii_runes s).
  { subst s. destruct w1 as [|c t]; [done|]. rewrite string_app_cons.
    cbn [ascii_runes]. apply drop_spaces_token.
    cbn [string_all] in H1. by apply andb_true_iff in H1 as [? _]. }
  rewrite Hhead.
  assert (Htail : strings.drop_spaces (rev (ascii_runes s)) = rev (ascii_runes s)).
  { subst s. rewrite !ascii_runes_app, app_assoc. by apply drop_spaces_rev_token. }
  rewrite Htail, rev_involutive. apply string_concat_ascii_runes.
Qed.

Lemma fields_go_token (w : string) (cur : option string) (l : list (Z * string)) :
  w <> EmptyString -> string_all is_token_byte w = true ->
  strings.fields_go unicode.IsSpace cur (ascii_runes w ++ l)
  = strings.fields_go unicode.IsSpace (Some (default EmptyString cur +:+ w)) l.
Proof.
  revert cur. induction w as [|c t IH]; intros cur Hne; [done|].
  cbn [string_all ascii_runes]. intros [Hc Ht]%andb_true_iff.
  pose proof Hc as Hc'. unfold is_token_byte in Hc'.
  apply andb_true_iff in Hc' as [_ Hs]. apply negb_true_iff in Hs.
  rewrite <- app_comm_cons. cbn [strings.fields_go]. rewrite Hs.
  destruct t as [|c' t'].
  - cbn [ascii_runes app].
    apply (f_equal (fun x => strings.fields_go unicode.IsSpace (Some x) l)).
    destruct cur; [done | by rewrite string_app_nil_l].
  - rewrite IH by done.
    apply (f_equal (fun x => strings.fields_go unicode.IsSpace (Some x) l)).
    destruct cur as [x|]; cbn [default from_option id].
    + by rewrite string_app_assoc, string_app_cons, string_app_nil_l.
    + by rewrite string_app_nil_l, string_app_cons, string_app_nil_l.
Qed.

(** The fields of two tokens separated by two spaces. *)
Lemma Fields_two_tokens (w1 w2 : string) :
  w1 <> EmptyString -> string_all is_token_byte w1 = true ->
  w2 <> EmptyString -> string_all is_token_byte w2 = true ->
  strings.Fields (w1 +:+ "  " +:+ w2) = [w1; w2].
Proof.
  intros Hne1 H1 Hne2 H2. unfold strings.Fields, strings.FieldsFunc.
  rewrite range_ascii.
  2:{ rewrite !string_all_app.
      rewrite (string_all_impl _ _ w1 is_token_ascii H1).
      by rewrite (string_all_impl _ _ w2 is_token_ascii H2). }
  rewrite !ascii_runes_app. rewrite fields_go_token by done.
  cbn [ascii_runes app strings.fields_go default from_option id].
  change (unicode.IsSpace (byte_val " ")) with true. cbv iota.
  rewrite <- (app_nil_r (ascii_runes w2)). rewrite fields_go_token by done.
  cbn [strings.fields_go default from_option id]. by rewrite ?string_app_nil_l.
Qed.

Lemma rev_app_append (s acc : string) :
  String.rev_app s acc = String.rev s +:+ acc.
Proof.
  unfold String.rev. revert acc. induction s as [|c s IH]; intros acc.
  - by rewrite string_app_nil_l.
  - cbn [String.rev_app]. rewrite (IH (String c acc)), (IH (String c EmptyString)).
    by rewrite string_app_assoc, string_app_cons, string_app_nil_l.
Qed.

Lemma raw_lines_go_line (line cur : string) :
  string_all not_newline line = true ->
  bufio.raw_lines_go cur (line +:+ nl) = [String.rev cur +:+ line].
Proof.
  revert cur. induction line as [|c t IH]; intros cur.
  - intros _. rewrite string_app_nil_l, string_app_nil_r. reflexivity.
  - cbn [string_all]. intros [Hc Ht]%andb_true_iff.
    rewrite string_app_cons. cbn [bufio.raw_lines_go].
    unfold not_newline in Hc. apply negb_true_iff in Hc. rewrite Hc.
    rewrite IH by done.
    change (String.rev (String c cur)) with (String.rev_app cur (String c EmptyString)).
    rewrite rev_app_append.
    by rewrite string_app_assoc, string_app_cons, string_app_nil_l.
Qed.

Lemma string_drop_last (s : string) (c : ascii) :
  string_last s = Some c -> string_drop (len s - 1) s = String c EmptyString.
Proof.
  induction s as [|c0 t IH]; [done|].
  destruct t as [|c1 t'].
  - simpl. by intros [= ->].
  - intros Hl. change (string_last (String c0 (String c1 t')))
      with (string_last (String c1 t')) in Hl.
    apply IH in Hl. simpl in *. by rewrite Nat.sub_0_r in *.
Qed.

Lemma dropCR_id (s : string) (c : ascii) :
  string_last s = Some c -> c <> "013"%char -> bufio.dropCR s = s.
Proof.
  intros Hl Hc. unfold bufio.dropCR, HasSuffix.
  change (len (String "013" EmptyString)) with 1%nat.
  rewrite (string_drop_last s c Hl).
  destruct (String.eqb_spec (String c EmptyString) (String "013" EmptyString))
    as [[= ->]|Hne]; [done|].
  by rewrite andb_false_r.
Qed.

Lemma HasSuffix_app (a s : string) : HasSuffix (a +:+ s) s = true.
Proof.
  unfold HasSuffix. rewrite len_app.
  replace (len a + len s - len s)%nat with (len a) by lia.
  replace (string_drop (len a) (a +:+ s)) with s.
  - rewrite String.eqb_refl, andb_true_r. apply Nat.leb_le. lia.
  - symmetry. apply (string_drop_len 0 (a +:+ s) a s). reflexivity.
Qed.


Lemma archive_name_tokens (ver os arch ext : string) :
  run_of regexp.is_digit_or_dot ver ->
  run_of regexp.is_word os -> run_of regexp.is_word arch ->
  ext = "tar.gz" \/ ext = "zip" ->
  string_all is_token_byte (archive_name ver os arch ext) = true.
Proof.
  intros [_ Hver] [_ Hos] [_ Harch] Hext. unfold archive_name.
  rewrite !string_all_app.
  rewrite (string_all_impl _ _ ver is_digit_or_dot_token Hver).
  rewrite (string_all_impl _ _ os is_word_token Hos).
  rewrite (string_all_impl _ _ arch is_word_token Harch).
  by destruct Hext as [-> | ->].
Qed.

Lemma archive_name_suffix (ver os arch ext : string) :
  ext = "tar.gz" \/ ext = "zip" ->
  HasSuffix (archive_name ver os arch ext) ".tar.gz"
  || HasSuffix (archive_name ver os arch ext) ".zip" = true.
Proof.
  intros [-> | ->]; apply orb_true_iff; [left | right].
  - replace (archive_name ver os arch "tar.gz")
      with (("golangci-lint-" +:+ ver +:+ "-" +:+ os +:+ "-" +:+ arch) +:+ ".tar.gz")
      by (unfold archive_name; by rewrite !string_app_assoc).
    apply HasSuffix_app.
  - replace (archive_name ver os arch "zip")
      with (("golangci-lint-" +:+ ver +:+ "-" +:+ os +:+ "-" +:+ arch) +:+ ".zip")
      by (unfold archive_name; by rewrite !string_app_assoc).
    apply HasSuffix_app.
Qed.

Lemma archive_name_last (a ver os arch ext : string) :
  ext = "tar.gz" \/ ext = "zip" ->
  exists c, string_last (a +:+ archive_name ver os arch ext) = Some c
            /\ c <> "013"%char.
Proof.
  intros Hext. unfold archive_name. rewrite <- !string_app_assoc.
  rewrite string_last_app by (by destruct Hext as [-> | ->]).
  destruct Hext as [-> | ->]; eexists; (split; [reflexivity | done]).
Qed.

Lemma isValidSHA256_tokens (hash : string) :
  isValidSHA256 hash = true ->
  hash <> EmptyString /\ string_all is_token_byte hash = true.
Proof.
  intros [Hlen Hhex]%isValidSHA256_spec. split.
  - by intros ->.
  - exact (string_all_impl _ _ hash is_hex_token Hhex).
Qed.

Lemma archive_name_not_empty (ver os arch ext : string) :
  archive_name ver os arch ext <> EmptyString.
Proof. unfold archive_name. by rewrite string_app_cons. Qed.

Lemma parse_line_well_formed (m : gmap Platform string) (log : list string)
    (hash ver os arch ext : string) :
  isValidSHA256 hash = true ->
  run_of regexp.is_digit_or_dot ver ->
  run_of regexp.is_word os -> run_of regexp.is_word arch ->
  ext = "tar.gz" \/ ext = "zip" ->
  parse_line (m, log) (manifest_line hash (archive_name ver os arch ext))
  = (<[{| OS := os; Arch := arch |} := hash]> m, log).
Proof.
  intros Hhash Hver Hos Harch Hext.
  destruct (isValidSHA256_tokens hash Hhash) as [Hne Htok].
  pose proof (archive_name_tokens ver os arch ext Hver Hos Harch Hext) as Hname.
  pose proof (archive_name_not_empty ver os arch ext) as Hname_ne.
  unfold parse_line, manifest_line.
  rewrite TrimSpace_tokens by done.
  rewrite Fields_two_tokens by done.
  destruct (String.eqb_spec (hash +:+ "  " +:+ archive_name ver os arch ext) EmptyString)
    as [E|_].
  { destruct hash; [done | by rewrite string_app_cons in E]. }
  cbn [length Nat.ltb Nat.leb Nat.sub nth]. rewrite Hhash. cbn [negb].
  destruct (HasSuffix (archive_name ver os arch ext) ".tar.gz") eqn:E1,
           (HasSuffix (archive_name ver os arch ext) ".zip") eqn:E2; cbn [negb andb];
    try (pose proof (archive_name_suffix ver os arch ext Hext) as Hs;
         rewrite E1, E2 in Hs; done);
    pose proof (ExtractPlatformFromFilename_shape ver os arch ext EmptyString
                  Hver Hos Harch Hext) as Hx;
    rewrite string_app_nil_r in Hx; unfold archive_name; by rewrite Hx.
Qed.

Lemma Scanner_one_line (line : string) (c : ascii) :
  string_all not_newline line = true ->
  string_last line = Some c -> c <> "013"%char ->
  Z.of_nat (len line) < bufio.MaxScanTokenSize ->
  bufio.Scanner (line +:+ nl) = ([line], None).
Proof.
  intros Hnl Hlast Hc Hlen. unfold bufio.Scanner, bufio.raw_lines.
  rewrite raw_lines_go_line by done.
  change (String.rev EmptyString) with EmptyString. rewrite string_app_nil_l.
  cbn [bufio.scan].
  destruct (Z.leb_spec bufio.MaxScanTokenSize (Z.of_nat (len line))); [lia|].
  by rewrite (dropCR_id line c).
Qed.

(** A well-formed line is read back as written: a manifest that consists
    of one line, a valid hash, two spaces and an archive name
    [golangci-lint-<ver>-<os>-<arch>.<ext>], short enough for the scanner,
    parses to the single entry [(os, arch)] with that hash, and nothing is
    logged. *)
Theorem ParseChecksumFile_reads_well_formed_line (hash ver os arch ext : string) :
  isValidSHA256 hash = true ->
  run_of regexp.is_digit_or_dot ver ->
  run_of regexp.is_word os -> run_of regexp.is_word arch ->
  ext = "tar.gz" \/ ext = "zip" ->
  Z.of_nat (len (manifest_line hash (archive_name ver os arch ext)))
    < bufio.MaxScanTokenSize ->
  ParseChecksumFile (manifest_line hash (archive_name ver os arch ext) +:+ nl)
  = (Ok {[ {| OS := os; Arch := arch |} := hash ]}, []).
Proof.
  intros Hhash Hver Hos Harch Hext Hlen.
  destruct (isValidSHA256_tokens hash Hhash) as [Hne Htok].
  pose proof (archive_name_tokens ver os arch ext Hver Hos Harch Hext) as Hname.
  destruct (archive_name_last (hash +:+ "  ") ver os arch ext Hext) as (c & Hlast & Hc).
  rewrite string_app_assoc in Hlast.
  unfold ParseChecksumFile.
  rewrite (Scanner_one_line _ c); [| | done | done | done].
  - cbn [foldl]. by rewrite parse_line_well_formed.
  - unfold manifest_line. rewrite !string_all_app.
    rewrite (string_all_impl _ _ hash is_token_not_newline Htok).
    by rewrite (string_all_impl _ _ _ is_token_not_newline Hname).
Qed.

(** ** Every line is stored, warned about or passed over *)

Lemma line_warnings_le (line : string) :
  (length (line_warnings line) + length (option_list (line_entry line)) <= 1)%nat.
Proof.
  destruct (line_entry line) as [e|] eqn:E.
  - rewrite line_entry_no_warning by (rewrite E; eauto). simpl. lia.
  - unfold line_warnings, parse_line. repeat case_match; simpl; lia.
Qed.

Lemma warnings_and_entries_le (lines : list string) :
  (length (concat (line_warnings <$> lines)) + length (omap line_entry lines)
   <= length lines)%nat.
Proof.
  induction lines as [|l lines IH]; [simpl; lia|].
  rewrite fmap_cons. cbn [concat omap list_omap]. rewrite length_app.
  pose proof (line_warnings_le l) as Hl.
  destruct (line_entry l); unfold option_list in Hl; simpl in Hl; cbn [length]; lia.
Qed.

(** No line is both stored and warned about, and none is warned about
    twice: the warnings logged and the lines that yield an entry together
    number at most the lines scanned. *)
Theorem ParseChecksumFile_warns_once_per_rejected_line (content : string) :
  (length (ParseChecksumFile content).2 + length (accepted_platforms content)
   <= length (manifest_lines content))%nat.
Proof.
  rewrite ParseChecksumFile_unfold. cbn [snd]. unfold accepted_platforms.
  rewrite length_fmap. apply warnings_and_entries_le.
Qed.

(** ** The mock client *)

(** The mock client after [AddRelease] for each of [tags] in turn. *)
Lemma Releases_foldl_AddRelease (tags : list string) (m : MockGitHubClient) :
  Releases (foldl (fun m tag => AddRelease tag m) m tags)
  = Releases m ++ ((fun tag => {| TagName := tag |}) <$> tags)
  /\ GetReleasesError (foldl (fun m tag => AddRelease tag m) m tags) = GetReleasesError m.
Proof.
  revert m. induction tags as [|tag tags IH]; intros m; simpl.
  - by rewrite app_nil_r.
  - destruct (IH (AddRelease tag m)) as [-> ->]. simpl. by rewrite <- app_assoc.
Qed.

(** Releases come back in the order they were added, the first [count] of
    them, or all when there are fewer; a negative [count] makes the call
    panic. *)
Theorem Mock_GetLatestReleases_round_trip (tags : list string) (count : Z) :
  let m := foldl (fun m tag => AddRelease tag m) NewMockGitHubClient tags in
  Mock_GetLatestReleases m count
  = if count <? 0 then None
    else Some (Ok ((fun tag => {| TagName := tag |}) <$> take (Z.to_nat count) tags), m).
Proof.
  cbv zeta. unfold Mock_GetLatestReleases.
  destruct (Releases_foldl_AddRelease tags NewMockGitHubClient) as [Hr He].
  rewrite He, Hr. simpl. rewrite length_fmap.
  destruct (Z.ltb_spec (Z.of_nat (length tags)) count) as [L|L].
  - destruct (Z.ltb_spec (Z.of_nat (length tags)) 0); [lia|].
    destruct (Z.ltb_spec count 0); [lia|].
    rewrite Nat2Z.id. rewrite (take_ge tags) by lia.
    by rewrite take_ge by (rewrite length_fmap; lia).
  - destruct (Z.ltb_spec count 0); [done|]. by rewrite fmap_take.
Qed.

(** An asset that was added is what a download of its URL returns, the
    other URLs answer as before, and a URL that was never added is
    reported as not found. *)
Theorem Mock_DownloadAsset_round_trip (m : MockGitHubClient) (url content : string) :
  DownloadError m = None ->
  (Mock_DownloadAsset (AddAsset url content m) url).1 = Ok content
  /\ (forall url', url' <> url ->
      (Mock_DownloadAsset (AddAsset url content m) url').1 = (Mock_DownloadAsset m url').1)
  /\ (AssetContents m !! url = None ->
      (Mock_DownloadAsset m url).1 = Err ("asset not found: " +:+ url)).
Proof.
  intros He. unfold Mock_DownloadAsset, AddAsset. simpl. rewrite He.
  split; [by rewrite lookup_insert_eq|]. split.
  - intros url' Hne. rewrite lookup_insert_ne by done.
    by destruct (AssetContents m !! url').
  - by intros ->.
Qed.

(** ** organizePlatformsByOS and PrepareTemplateData, whatever the iteration order *)

Lemma organize_step_lookup (result : gmap string (gmap string string))
    (p : Platform) (h os arch : string) :
  nested_lookup (organize_step result (p, h)) os arch
  = if decide (p = {| OS := os; Arch := arch |}) then Some h
    else nested_lookup result os arch.
Proof.
  unfold nested_lookup, organize_step. destruct p as [pos parch].
  destruct (decide (pos = os)) as [->|Hos].
  - rewrite lookup_insert_eq. simpl.
    destruct (decide (parch = arch)) as [->|Harch].
    + rewrite lookup_insert_eq. by rewrite decide_True.
    + rewrite lookup_insert_ne by done. rewrite decide_False by congruence.
      by destruct (result !! os).
  - rewrite lookup_insert_ne by done. rewrite decide_False by congruence. done.
Qed.

Lemma organize_foldl_other (l : list (Platform * string))
    (acc : gmap string (gmap string string)) (os arch : string) :
  (forall h, ({| OS := os; Arch := arch |}, h) ∉ l) ->
  nested_lookup (foldl organize_step acc l) os arch = nested_lookup acc os arch.
Proof.
  revert acc. induction l as [|[p h] l IH]; intros acc Hno; cbn [foldl]; [done|].
  rewrite IH by (intros h' Hin; apply (Hno h'); by right).
  rewrite organize_step_lookup. rewrite decide_False; [done|].
  intros ->. apply (Hno h). by left.
Qed.

Lemma organize_foldl_entry (l : list (Platform * string))
    (acc : gmap string (gmap string string)) (p : Platform) (h : string) :
  NoDup l.*1 -> (p, h) ∈ l ->
  nested_lookup (foldl organize_step acc l) (OS p) (Arch p) = Some h.
Proof.
  revert acc. induction l as [|[p' h'] l IH]; intros acc Hnd Hin; cbn [foldl].
  { by apply elem_of_nil in Hin. }
  rewrite fmap_cons in Hnd. apply NoDup_cons in Hnd as [Hnotin Hnd].
  apply elem_of_cons in Hin as [[= <- <-]|Hin].
  - rewrite organize_foldl_other.
    + rewrite organize_step_lookup. rewrite decide_True; [done | by destruct p].
    + intros h0 Hin. apply Hnotin. apply list_elem_of_fmap.
      exists ({| OS := OS p; Arch := Arch p |}, h0). split; [by destruct p | done].
  - by apply IH.
Qed.

Lemma organize_foldl_nonempty (l : list (Platform * string))
    (acc : gmap string (gmap string string)) :
  (forall os inner, acc !! os = Some inner -> inner <> ∅) ->
  forall os inner, foldl organize_step acc l !! os = Some inner -> inner <> ∅.
Proof.
  revert acc. induction l as [|[p h] l IH]; intros acc Hacc; cbn [foldl]; [done|].
  apply IH. intros os inner. unfold organize_step.
  destruct (decide (OS p = os)) as [<-|Hne].
  - rewrite lookup_insert_eq. intros [= <-]. apply insert_non_empty.
  - rewrite lookup_insert_ne by done. apply Hacc.
Qed.

Section Reshaping.

Variable map_range : MapRange.

Lemma organizePlatformsByOS_foldl (checksums : gmap Platform string) :
  organizePlatformsByOS map_range checksums
  = foldl organize_step ∅ (map_range _ _ _ _ checksums).
Proof. reflexivity. Qed.

Lemma organizePlatformsByOS_lookup (checksums : gmap Platform string)
    (os arch : string) :
  range_order map_range ->
  nested_lookup (organizePlatformsByOS map_range checksums) os arch
  = checksums !! {| OS := os; Arch := arch |}.
Proof.
  intros Hr. rewrite organizePlatformsByOS_foldl.
  pose proof (Hr _ _ _ _ checksums) as Hp.
  destruct (checksums !! {| OS := os; Arch := arch |}) as [h|] eqn:E.
  - apply (organize_foldl_entry _ _ {| OS := os; Arch := arch |} h).
    + rewrite Hp. apply NoDup_fst_map_to_list.
    + rewrite Hp. by apply elem_of_map_to_list.
  - rewrite organize_foldl_other; [done|].
    intros h Hin. rewrite Hp in Hin. apply elem_of_map_to_list in Hin. congruence.
Qed.

Lemma organizePlatformsByOS_nonempty (checksums : gmap Platform string)
    (os : string) (inner : gmap string string) :
  organizePlatformsByOS map_range checksums !! os = Some inner -> inner <> ∅.
Proof.
  rewrite organizePlatformsByOS_foldl. apply organize_foldl_nonempty.
  intros ? ?. by rewrite lookup_empty.
Qed.

(** Reshaping loses and invents nothing: under any iteration order,
    [organizePlatformsByOS checksums] has hash [h] at [os] then [arch]
    exactly when [checksums] has [h] at the platform [(os, arch)]; an OS is
    a key only if it has an architecture. *)
Theorem organizePlatformsByOS_round_trip (checksums : gmap Platform string) :
  range_order map_range ->
  (forall os arch,
     nested_lookup (organizePlatformsByOS map_range checksums) os arch
     = checksums !! {| OS := os; Arch := arch |})
  /\ (forall os,
        is_Some (organizePlatformsByOS map_range checksums !! os) <->
        exists arch h, checksums !! {| OS := os; Arch := arch |} = Some h).
Proof.
  intros Hr. split; [intros; by apply organizePlatformsByOS_lookup|].
  intros os. split.
  - intros [inner Hi].
    pose proof (organizePlatformsByOS_nonempty _ _ _ Hi) as Hne.
    apply map_choose in Hne as (arch & h & Hh).
    exists arch, h. rewrite <- organizePlatformsByOS_lookup by done.
    unfold nested_lookup. by rewrite Hi.
  - intros (arch & h & Hh). rewrite <- organizePlatformsByOS_lookup in Hh by done.
    unfold nested_lookup in Hh.
    destruct (organizePlatformsByOS map_range checksums !! os); [eauto | done].
Qed.

Lemma nested_lookup_ext (m1 m2 : gmap string (gmap string string)) :
  (forall os inner, m1 !! os = Some inner -> inner <> ∅) ->
  (forall os inner, m2 !! os = Some inner -> inner <> ∅) ->
  (forall os arch, nested_lookup m1 os arch = nested_lookup m2 os arch) ->
  m1 = m2.
Proof.
  intros Hn1 Hn2 Heq. apply map_eq. intros os.
  destruct (m1 !! os) as [i1|] eqn:E1, (m2 !! os) as [i2|] eqn:E2; [| | |done].
  - f_equal. apply map_eq. intros arch. specialize (Heq os arch).
    unfold nested_lookup in Heq. by rewrite E1, E2 in Heq.
  - exfalso. pose proof (Hn1 os i1 E1) as Hne.
    apply map_choose in Hne as (arch & h & Hh). specialize (Heq os arch).
    unfold nested_lookup in Heq. rewrite E1, E2 in Heq. simpl in Heq. congruence.
  - exfalso. pose proof (Hn2 os i2 E2) as Hne.
    apply map_choose in Hne as (arch & h & Hh). specialize (Heq os arch).
    unfold nested_lookup in Heq. rewrite E1, E2 in Heq. simpl in Heq. congruence.
Qed.

Lemma organizePlatformsByOS_order (map_range' : MapRange)
    (checksums : gmap Platform string) :
  range_order map_range -> range_order map_range' ->
  organizePlatformsByOS map_range checksums = organizePlatformsByOS map_range' checksums.
Proof.
  intros Hr Hr'. apply nested_lookup_ext.
  - apply organizePlatformsByOS_nonempty.
  - unfold organizePlatformsByOS. apply organize_foldl_nonempty.
    intros ? ?. by rewrite lookup_empty.
  - intros os arch. rewrite organizePlatformsByOS_lookup by done.
    unfold organizePlatformsByOS.
    change (foldl _ ∅ (map_range' _ _ _ _ checksums))
      with (foldl organize_step ∅ (map_range' _ _ _ _ checksums)).
    pose proof (Hr' _ _ _ _ checksums) as Hp.
    destruct (checksums !! {| OS := os; Arch := arch |}) as [h|] eqn:E.
    + symmetry. apply (organize_foldl_entry _ _ {| OS := os; Arch := arch |} h).
      * rewrite Hp. apply NoDup_fst_map_to_list.
      * rewrite Hp. by apply elem_of_map_to_list.
    + rewrite organize_foldl_other; [done|].
      intros h Hin. rewrite Hp in Hin. apply elem_of_map_to_list in Hin. congruence.
Qed.

(** The data handed to the template does not depend on the order in which
    Go iterates over the checksum maps: any two iteration orders give the
    same [TemplateData]. *)
Theorem PrepareTemplateData_order_independent (map_range' : MapRange)
    (now : string) (versions : list Version) :
  range_order map_range -> range_order map_range' ->
  PrepareTemplateData map_range now versions
  = PrepareTemplateData map_range' now versions.
Proof.
  intros Hr Hr'. destruct versions as [|v vs]; [done|].
  unfold PrepareTemplateData. f_equal.
  apply list_fmap_ext. intros i v' _. f_equal.
  by apply organizePlatformsByOS_order.
Qed.

(** [PrepareTemplateData] keeps every version: the versions of the result
    are those given, in the same order and with the same tags, and each
    holds at [os] then [arch] exactly the hash its version has for the
    platform [(os, arch)]; the time stamp is the one given, and with no
    version the default version is empty. *)
Theorem PrepareTemplateData_keeps_versions (now : string) (versions : list Version) :
  range_order map_range ->
  let data := PrepareTemplateData map_range now versions in
  GeneratedAt data = now
  /\ length (Versions data) = length versions
  /\ (forall i v, versions !! i = Some v ->
      exists vd, Versions data !! i = Some vd /\ VTag vd = Tag v
        /\ forall os arch,
             nested_lookup (ChecksumsByOS vd) os arch
             = Checksums v !! {| OS := os; Arch := arch |})
  /\ (versions = [] -> DefaultVersion data = EmptyString).
Proof.
  intros Hr. destruct versions as [|v0 vs].
  { simpl. repeat split; done. }
  cbv zeta. unfold PrepareTemplateData. cbn [GeneratedAt Versions DefaultVersion].
  split; [done|]. split; [by rewrite length_fmap|]. split; [|done].
  intros i v Hi. eexists. rewrite list_lookup_fmap, Hi. split; [reflexivity|].
  split; [reflexivity|]. intros os arch. simpl.
  by apply organizePlatformsByOS_lookup.
Qed.

End Reshaping.

(** ** The program in its world *)

Section UpdaterFacts.

Context {C : Type} `{GitHubAPI C}.
Variable fault : list Event -> Call -> Fault.
Variable render : TemplateData -> string.
Variable map_range : MapRange.
Variable filepath_IsAbs : string -> bool.
Variable filepath_Join : string -> string -> string.
Variable filepath_Dir : string -> string.

Ltac unfold_M :=
  unfold mbind, M_bind, mret, M_ret, log_Printf, log_lines, time_Now in *.

Ltac trace_norm :=
  unfold events_since; simpl; rewrite <- ?app_assoc; rewrite ?drop_app_length; simpl.

Lemma events_since_app (w w' : World C) (l : list Event) :
  trace w' = trace w ++ l -> events_since w w' = l.
Proof. unfold events_since. intros ->. by rewrite drop_app_length. Qed.

(** *** loadFromCacheOrDownload *)

(** C8: when the cache file exists and the environment lets [os.Stat] and
    [os.ReadFile] through, [loadFromCacheOrDownload] returns the file's
    contents as they are, leaves the file system and the client untouched
    and makes no call but these two; whenever it does call
    [DownloadAsset], [os.Stat] on the cache file has failed before. *)
Theorem C8_cache_hit_never_downloads (cacheFile tag data : string) (w : World C) :
  fs w !! cacheFile = Some data ->
  fault (trace w) (SysStat cacheFile) = NoFault ->
  fault (trace w ++ [{| call := SysStat cacheFile; ok := true |}])
        (SysReadFile cacheFile) = NoFault ->
  (loadFromCacheOrDownload fault cacheFile tag w).1 = Ok data
  /\ fs (loadFromCacheOrDownload fault cacheFile tag w).2 = fs w
  /\ client (loadFromCacheOrDownload fault cacheFile tag w).2 = client w
  /\ events_since w (loadFromCacheOrDownload fault cacheFile tag w).2
     = [{| call := SysStat cacheFile; ok := true |};
        {| call := SysReadFile cacheFile; ok := true |}]
  /\ (forall tag' w' url b,
        In {| call := ApiDownloadAsset url; ok := b |}
           (events_since w' (loadFromCacheOrDownload fault cacheFile tag' w').2) ->
        In {| call := SysStat cacheFile; ok := false |}
           (events_since w' (loadFromCacheOrDownload fault cacheFile tag' w').2)).
Proof.
  intros Hfile Hstat Hread.
  assert (Hhit : loadFromCacheOrDownload fault cacheFile tag w
                 = (Ok data,
                    emit (SysReadFile cacheFile) true
                      (add_logs ["  Using cached checksum file"]
                         (emit (SysStat cacheFile) true w)))).
  { unfold loadFromCacheOrDownload, os_Stat, os_ReadFile. unfold_M.
    rewrite Hstat, Hfile. simpl. rewrite Hread, Hfile. reflexivity. }
  rewrite Hhit. simpl. repeat split.
  - apply events_since_app. simpl. by rewrite <- app_assoc.
  - clear. intros tag' w' url b.
    unfold loadFromCacheOrDownload, os_Stat, os_ReadFile, os_WriteFile,
      client_DownloadAsset.
    unfold_M.
    destruct (DownloadAsset (client w') (checksums_url tag')) as [r c'] eqn:Hd.
    repeat case_match; simplify_eq; trace_norm;
      rewrite ?Hd; simpl; trace_norm; naive_solver.
Qed.

(** *** GenerateStarlarkFile *)

Lemma tmp_ne (outputPath : string) : outputPath +:+ ".tmp" <> outputPath.
Proof.
  intros E. apply (f_equal len) in E. rewrite len_app in E. simpl in E. lia.
Qed.

(** C1, as the code has it.  On success the output file holds the rendered
    text and the temporary file is gone.  When a step after the creation of
    the temporary file fails (template execution, close or rename), an
    error is returned and the output file is what it was; the temporary
    file is then removed, unless that [os.Remove] fails too: its error is
    dropped, and the file stays.  Before that point, an error leaves the
    whole file system as it was. *)
Theorem C1_atomic_write_best_effort_cleanup
    (data : TemplateData) (outputPath : string) (w : World C) :
  let tempFile := outputPath +:+ ".tmp" in
  let err := (GenerateStarlarkFile fault render data outputPath w).1 in
  let w' := (GenerateStarlarkFile fault render data outputPath w).2 in
  let failed c := In {| call := c; ok := false |} (events_since w w') in
  let created := In {| call := SysCreate tempFile; ok := true |} (events_since w w') in
  (err = None ->
   fs w' !! outputPath = Some (render data) /\ fs w' !! tempFile = None)
  /\ (failed (TmplExecute tempFile data) \/ failed (SysClose tempFile)
      \/ failed (SysRename tempFile outputPath) -> err <> None)
  /\ (created -> err <> None ->
      fs w' !! outputPath = fs w !! outputPath
      /\ (fs w' !! tempFile = None \/ failed (SysRemove tempFile)))
  /\ (~ created -> err <> None /\ fs w' = fs w).
Proof.
  pose proof (tmp_ne outputPath) as Hne.
  destruct (GenerateStarlarkFile fault render data outputPath w) as [err w'] eqn:E.
  simpl.
  unfold GenerateStarlarkFile, template_ParseFS, os_Create, tmpl_Execute,
    file_Close, os_Rename, os_Remove in E.
  unfold_M.
  repeat (case_match; simplify_eq).
  all: simpl in *; trace_norm; simplify_map_eq; naive_solver.
Qed.

(** *** processReleases and Run *)

Lemma add_logs_add_logs (l1 l2 : list string) (w : World C) :
  add_logs l2 (add_logs l1 w) = add_logs (l1 ++ l2) w.
Proof. unfold add_logs. simpl. by rewrite <- app_assoc. Qed.

(** A release survives an iteration exactly when its tag is not empty, its
    manifest is resolved and the manifest parses; the version then has the
    tag of the release and the checksums parsed, however few. *)
Lemma processRelease_Some (release : Release) (cacheDir : string) (w : World C)
    (v : Version) :
  (processRelease fault filepath_Join release cacheDir w).1 = Some v <->
  TagName release <> EmptyString
  /\ Tag v = TagName release
  /\ exists data,
       (loadFromCacheOrDownload fault
          (filepath_Join cacheDir (TagName release +:+ ".txt")) (TagName release)
          (add_logs ["Processing " +:+ TagName release +:+ "..."] w)).1 = Ok data
       /\ (ParseChecksumFile data).1 = Ok (Checksums v).
Proof.
  unfold processRelease. unfold_M.
  destruct (String.eqb_spec (TagName release) EmptyString) as [E|E]; simpl.
  { split; [done | by intros [? _]]. }
  destruct (loadFromCacheOrDownload _ _ _ _) as [[data|err] w1]; simpl.
  - destruct (ParseChecksumFile data) as [[checksums|err] warnings] eqn:Hp; simpl.
    + split.
      * intros [= <-]. simpl. split; [done|]. split; [done|].
        exists data. by rewrite Hp.
      * intros (_ & Ht & data' & [= <-] & Hc). rewrite Hp in Hc. simpl in Hc.
        destruct v. simpl in *. by simplify_eq.
    + split; [done|]. intros (_ & _ & data' & [= <-] & Hc).
      by rewrite Hp in Hc.
  - split; [done|]. by intros (_ & _ & data' & ? & _).
Qed.

Lemma processReleases_from_outcomes (releases : list Release) (cacheDir : string)
    (versions : list Version) (w : World C) :
  (processReleases_from fault filepath_Join versions releases cacheDir w).1
  = versions ++ omap id (release_outcomes fault filepath_Join releases cacheDir w).
Proof.
  revert versions w. induction releases as [|r rs IH]; intros versions w; simpl.
  - by rewrite app_nil_r.
  - unfold mbind, M_bind.
    destruct (processRelease fault filepath_Join r cacheDir w) as [[v|] w1]; simpl.
    + by rewrite IH, <- app_assoc.
    + apply IH.
Qed.

Lemma length_release_outcomes (releases : list Release) (cacheDir : string)
    (w : World C) :
  length (release_outcomes fault filepath_Join releases cacheDir w) = length releases.
Proof.
  revert w. induction releases as [|r rs IH]; intros w; simpl; [done|].
  destruct (processRelease _ _ _ _ _). simpl. by rewrite IH.
Qed.

Lemma length_omap_id (l : list (option Version)) :
  (length (omap id l) + length (List.filter skipped l) = length l)%nat.
Proof.
  induction l as [|[a|] l IH]; [done | | ].
  - change (omap id (Some a :: l)) with (a :: omap id l). simpl. lia.
  - change (omap id (None :: l)) with (omap id l). simpl. lia.
Qed.

Lemma omap_id_tags (releases : list Release) (cacheDir : string) (w : World C) :
  Tag <$> omap id (release_outcomes fault filepath_Join releases cacheDir w)
  `sublist_of` TagName <$> releases.
Proof.
  revert w. induction releases as [|r rs IH]; intros w; simpl; [constructor|].
  destruct (processRelease fault filepath_Join r cacheDir w) as [[v|] w1] eqn:E;
    simpl.
  - assert (Hv : (processRelease fault filepath_Join r cacheDir w).1 = Some v)
      by (by rewrite E).
    apply processRelease_Some in Hv as (_ & -> & _).
    constructor. apply IH.
  - constructor. apply IH.
Qed.

Lemma Run_process_no_versions (releases : list Release)
    (absCacheDir absOutputFile : string) (w : World C) :
  (processReleases fault filepath_Join releases absCacheDir
     (add_logs ["Found " +:+ itoa (Z.of_nat (length releases)) +:+ " releases"] w)).1
  = [] ->
  (Run_process fault render map_range filepath_Join releases absCacheDir
     absOutputFile w).1
  = Returned (Some ErrNoVersions).
Proof.
  unfold Run_process. unfold_M. intros Hv.
  destruct (processReleases _ _ _ _ _) as [versions w1]. simpl in Hv. by subst.
Qed.

Lemma Run_reaches_process (r : Runner) (w : World C) (releases : list Release)
    (c' : C) :
  (forall t path, fault t (SysMkdirAll path) = NoFault) ->
  GetLatestReleases (client w) (Count (config r)) = Some (Ok releases, c') ->
  Run fault render map_range filepath_IsAbs filepath_Join filepath_Dir r w
  = Run_process fault render map_range filepath_Join releases
      (resolveAbsolutePaths filepath_IsAbs filepath_Join r).1
      (resolveAbsolutePaths filepath_IsAbs filepath_Join r).2
      (world_after_fetch filepath_IsAbs filepath_Join filepath_Dir r w releases c').
Proof.
  intros Hmk Hget. unfold Run, world_after_fetch.
  destruct (resolveAbsolutePaths filepath_IsAbs filepath_Join r) as [cd out].
  unfold os_MkdirAll, client_GetLatestReleases. unfold_M.
  rewrite !Hmk. simpl. rewrite Hget. simpl.
  rewrite !add_logs_add_logs. reflexivity.
Qed.

(** C7: [processReleases] returns the versions of the releases that
    survive their iteration, one each, in the order of the releases.  A
    release survives exactly when its tag is not empty and its manifest is
    resolved and parses, also when the parse finds no platform at all.  So
    the number of versions is the number of releases less the number of
    skipped ones, one less than the releases when exactly one is skipped;
    and when no version survives, [Run] returns the error "no versions were
    successfully processed". *)
Theorem C7_one_version_per_surviving_release
    (releases : list Release) (cacheDir : string) (w : World C) :
  let outcomes := release_outcomes fault filepath_Join releases cacheDir w in
  let versions := (processReleases fault filepath_Join releases cacheDir w).1 in
  versions = omap id outcomes
  /\ length outcomes = length releases
  /\ Tag <$> versions `sublist_of` TagName <$> releases
  /\ (length versions + length (List.filter skipped outcomes) = length releases)%nat
  /\ (length (List.filter skipped outcomes) = 1%nat ->
      length versions = (length releases - 1)%nat)
  /\ (forall release w0 v,
        (processRelease fault filepath_Join release cacheDir w0).1 = Some v <->
        TagName release <> EmptyString
        /\ Tag v = TagName release
        /\ exists data,
             (loadFromCacheOrDownload fault
                (filepath_Join cacheDir (TagName release +:+ ".txt"))
                (TagName release)
                (add_logs ["Processing " +:+ TagName release +:+ "..."] w0)).1
             = Ok data
             /\ (ParseChecksumFile data).1 = Ok (Checksums v))
  /\ (forall release w0 data,
        TagName release <> EmptyString ->
        (loadFromCacheOrDownload fault
           (filepath_Join cacheDir (TagName release +:+ ".txt")) (TagName release)
           (add_logs ["Processing " +:+ TagName release +:+ "..."] w0)).1 = Ok data ->
        (ParseChecksumFile data).1 = Ok ∅ ->
        (processRelease fault filepath_Join release cacheDir w0).1
        = Some {| Tag := TagName release; Checksums := ∅ |})
  /\ (forall absOutputFile w0,
        (processReleases fault filepath_Join releases cacheDir
           (add_logs ["Found " +:+ itoa (Z.of_nat (length releases)) +:+ " releases"]
              w0)).1 = [] ->
        (Run_process fault render map_range filepath_Join releases cacheDir
           absOutputFile w0).1 = Returned (Some ErrNoVersions))
  /\ (forall r w0 c',
        (forall t path, fault t (SysMkdirAll path) = NoFault) ->
        GetLatestReleases (client w0) (Count (config r)) = Some (Ok releases, c') ->
        (processReleases fault filepath_Join releases
           (resolveAbsolutePaths filepath_IsAbs filepath_Join r).1
           (add_logs ["Found " +:+ itoa (Z.of_nat (length releases)) +:+ " releases"]
              (world_after_fetch filepath_IsAbs filepath_Join filepath_Dir r w0
                 releases c'))).1 = [] ->
        (Run fault render map_range filepath_IsAbs filepath_Join filepath_Dir r w0).1
        = Returned (Some ErrNoVersions)).
Proof.
  cbv zeta. unfold processReleases.
  rewrite processReleases_from_outcomes, app_nil_l.
  pose proof (length_omap_id (release_outcomes fault filepath_Join releases cacheDir w))
    as Hlen.
  rewrite length_release_outcomes in Hlen.
  split; [done|]. split; [apply length_release_outcomes|].
  split; [apply omap_id_tags|]. split; [done|]. split; [lia|].
  split; [intros; apply processRelease_Some|].
  split.
  - intros release w0 data Ht Hl Hp. apply processRelease_Some.
    simpl. split; [done|]. split; [done|]. by exists data.
  - split.
    + intros. by apply Run_process_no_versions.
    + intros r w0 c' Hmk Hget Hnone.
      rewrite (Run_reaches_process r w0 releases c' Hmk Hget).
      by apply Run_process_no_versions.
Qed.

(** *** More on GenerateStarlarkFile *)

(** What [GenerateStarlarkFile] leaves alone, and what it does to the two
    paths it works on. *)
Lemma GenerateStarlarkFile_effect (data : TemplateData) (outputPath : string)
    (w : World C) :
  let err := (GenerateStarlarkFile fault render data outputPath w).1 in
  let w' := (GenerateStarlarkFile fault render data outputPath w).2 in
  client w' = client w /\ logs w' = logs w /\ clock w' = clock w
  /\ (forall p, p <> outputPath -> p <> outputPath +:+ ".tmp" ->
      fs w' !! p = fs w !! p)
  /\ (err = None ->
      fs w' !! outputPath = Some (render data)
      /\ fs w' !! (outputPath +:+ ".tmp") = None
      /\ In {| call := TmplExecute (outputPath +:+ ".tmp") data; ok := true |}
            (events_since w w'))
  /\ (err <> None -> fs w' !! outputPath = fs w !! outputPath)
  /\ (forall c b, In {| call := c; ok := b |} (events_since w w') ->
      match c with
      | ApiGetLatestReleases _ | ApiDownloadAsset _ | SysMkdirAll _ | SysStat _
      | SysReadFile _ | SysWriteFile _ _ => False
      | _ => True
      end).
Proof.
  clear map_range filepath_IsAbs filepath_Join filepath_Dir.
  pose proof (tmp_ne outputPath) as Hne.
  destruct (GenerateStarlarkFile fault render data outputPath w) as [err w'] eqn:E.
  simpl.
  unfold GenerateStarlarkFile, template_ParseFS, os_Create, tmpl_Execute,
    file_Close, os_Rename, os_Remove in E.
  unfold_M.
  repeat (case_match; simplify_eq).
  all: simpl in *; trace_norm.
  all: repeat split; try done; intros; simplify_map_eq; try done.
  all: try naive_solver.
Qed.

(** *** More on loadFromCacheOrDownload *)

Lemma os_Stat_miss (cacheFile : string) (w : World C) :
  cache_miss fault cacheFile w ->
  exists e, os_Stat fault cacheFile w = (Some e, emit (SysStat cacheFile) false w).
Proof.
  unfold cache_miss, os_Stat. intros [Hf | Hf].
  - rewrite Hf. destruct (fault _ _); eauto.
  - destruct (fault _ _); [done | | ]; destruct (fs w !! cacheFile); eauto.
Qed.

(** What [loadFromCacheOrDownload] leaves alone: every file but the cache
    file, and the clock; the trace and the log only grow. *)
Lemma loadFromCacheOrDownload_frame (cacheFile tag : string) (w : World C) :
  let w' := (loadFromCacheOrDownload fault cacheFile tag w).2 in
  clock w' = clock w
  /\ (forall p, p <> cacheFile -> fs w' !! p = fs w !! p)
  /\ (exists evs, trace w' = trace w ++ evs)
  /\ (exists msgs, logs w' = logs w ++ msgs).
Proof.
  destruct (loadFromCacheOrDownload fault cacheFile tag w) as [r w'] eqn:E. simpl.
  unfold loadFromCacheOrDownload, os_Stat, os_ReadFile, os_WriteFile,
    client_DownloadAsset in E.
  unfold_M.
  destruct (DownloadAsset (client w) (checksums_url tag)) as [r0 c'] eqn:Hd.
  repeat (case_match; simplify_eq); simpl in *;
    rewrite ?Hd in *; simplify_eq; simpl;
    rewrite <- ?app_assoc;
    (split; [done|]); (split; [intros; by simplify_map_eq|]); eauto.
Qed.

End UpdaterFacts.

(** ** Further properties of the program in its world *)

Section UpdaterFurther.

Context {C : Type} `{GitHubAPI C}.
Variable fault : list Event -> Call -> Fault.
Variable render : TemplateData -> string.
Variable map_range : MapRange.
Variable filepath_IsAbs : string -> bool.
Variable filepath_Join : string -> string -> string.
Variable filepath_Dir : string -> string.

Ltac unfold_M :=
  unfold mbind, M_bind, mret, M_ret, log_Printf, log_lines, time_Now in *.
Ltac trace_norm :=
  unfold events_since; simpl; rewrite <- ?app_assoc; rewrite ?drop_app_length; simpl.

(** On a cache miss the manifest is asked of the client, once, at the URL
    made from the tag; a failing download is the error of the call, and
    nothing is written. *)
Theorem loadFromCacheOrDownload_download_fails (cacheFile tag : string)
    (w : World C) (err : string) :
  cache_miss fault cacheFile w ->
  (DownloadAsset (client w) (checksums_url tag)).1 = Err err ->
  (loadFromCacheOrDownload fault cacheFile tag w).1
  = Err ("failed to download checksum file: " +:+ err)
  /\ fs (loadFromCacheOrDownload fault cacheFile tag w).2 = fs w
  /\ events_since w (loadFromCacheOrDownload fault cacheFile tag w).2
     = [{| call := SysStat cacheFile; ok := false |};
        {| call := ApiDownloadAsset (checksums_url tag); ok := false |}].
Proof.
  intros Hmiss Hd. apply os_Stat_miss in Hmiss as [e Hs].
  unfold loadFromCacheOrDownload, client_DownloadAsset. unfold_M.
  rewrite Hs. simpl.
  destruct (DownloadAsset (client w) (checksums_url tag)) as [r c'].
  simpl in Hd. subst r. simpl. split; [done|]. split; [done|].
  apply events_since_app. simpl. by rewrite <- app_assoc.
Qed.

Lemma loadFromCacheOrDownload_miss_ok (cacheFile tag : string)
    (w : World C) (data : string) :
  cache_miss fault cacheFile w ->
  (DownloadAsset (client w) (checksums_url tag)).1 = Ok data ->
  let w' := (loadFromCacheOrDownload fault cacheFile tag w).2 in
  (loadFromCacheOrDownload fault cacheFile tag w).1 = Ok data
  /\ (exists saved,
        events_since w w'
        = [{| call := SysStat cacheFile; ok := false |};
           {| call := ApiDownloadAsset (checksums_url tag); ok := true |};
           {| call := SysWriteFile cacheFile data; ok := saved |}]
        /\ (saved = true -> fs w' = <[cacheFile := data]> (fs w))
        /\ (saved = false ->
            exists e, last (logs w') = Some ("  Warning: failed to save to cache: " +:+ e)))
  /\ client w' = (DownloadAsset (client w) (checksums_url tag)).2.
Proof.
  intros Hmiss Hd. apply os_Stat_miss in Hmiss as [e Hs].
  unfold loadFromCacheOrDownload, client_DownloadAsset, os_WriteFile. unfold_M.
  rewrite Hs. simpl.
  destruct (DownloadAsset (client w) (checksums_url tag)) as [r c'].
  simpl in Hd. subst r. simpl.
  destruct (fault _ (SysWriteFile cacheFile data)) eqn:Hw; simpl;
    (split; [done|]); (split; [|done]).
  - exists true. split; [apply events_since_app; simpl; by rewrite <- !app_assoc|].
    split; [done|done].
  - exists false. split; [apply events_since_app; simpl; by rewrite <- !app_assoc|].
    split; [done|]. intros _. exists EIO. by rewrite last_snoc.
  - exists false. split; [apply events_since_app; simpl; by rewrite <- !app_assoc|].
    split; [done|]. intros _. exists EIO. by rewrite last_snoc.
Qed.

(** On a cache miss a successful download is the result of the call,
    whether or not the data can be saved to the cache: saving is tried
    once, and its failure is only logged.  When saving succeeds the cache
    file holds the data. *)
Theorem loadFromCacheOrDownload_download_succeeds (cacheFile tag : string)
    (w : World C) (data : string) :
  cache_miss fault cacheFile w ->
  (DownloadAsset (client w) (checksums_url tag)).1 = Ok data ->
  let w' := (loadFromCacheOrDownload fault cacheFile tag w).2 in
  (loadFromCacheOrDownload fault cacheFile tag w).1 = Ok data
  /\ (exists saved,
        events_since w w'
        = [{| call := SysStat cacheFile; ok := false |};
           {| call := ApiDownloadAsset (checksums_url tag); ok := true |};
           {| call := SysWriteFile cacheFile data; ok := saved |}]
        /\ (saved = true -> fs w' = <[cacheFile := data]> (fs w))
        /\ (saved = false ->
            exists e, last (logs w') = Some ("  Warning: failed to save to cache: " +:+ e)))
  /\ client w' = (DownloadAsset (client w) (checksums_url tag)).2.
Proof. apply loadFromCacheOrDownload_miss_ok. Qed.

(** A download that was saved is not repeated: the next call for the same
    cache file finds it, returns the same data and leaves the network
    alone. *)
Theorem loadFromCacheOrDownload_second_call_hits (cacheFile tag : string)
    (w : World C) (data : string) :
  let w1 := (loadFromCacheOrDownload fault cacheFile tag w).2 in
  cache_miss fault cacheFile w ->
  (DownloadAsset (client w) (checksums_url tag)).1 = Ok data ->
  In {| call := SysWriteFile cacheFile data; ok := true |} (events_since w w1) ->
  fault (trace w1) (SysStat cacheFile) = NoFault ->
  fault (trace w1 ++ [{| call := SysStat cacheFile; ok := true |}])
        (SysReadFile cacheFile) = NoFault ->
  (loadFromCacheOrDownload fault cacheFile tag w1).1 = Ok data
  /\ events_since w1 (loadFromCacheOrDownload fault cacheFile tag w1).2
     = [{| call := SysStat cacheFile; ok := true |};
        {| call := SysReadFile cacheFile; ok := true |}]
  /\ client (loadFromCacheOrDownload fault cacheFile tag w1).2 = client w1.
Proof.
  intros w1 Hmiss Hd Hsaved Hstat Hread.
  destruct (loadFromCacheOrDownload_miss_ok cacheFile tag w data Hmiss Hd)
    as (_ & (saved & Hev & Hfs & _) & _).
  fold w1 in Hev, Hfs. rewrite Hev in Hsaved.
  assert (saved = true) as ->.
  { simpl in Hsaved. destruct Hsaved as [?|[?|[?|[]]]]; by simplify_eq. }
  assert (Hfile : fs w1 !! cacheFile = Some data)
    by (by rewrite Hfs, lookup_insert_eq).
  unfold loadFromCacheOrDownload, os_Stat, os_ReadFile. unfold_M.
  rewrite Hstat, Hfile. simpl. rewrite Hread, Hfile. simpl.
  split; [done|]. split; [|done].
  apply events_since_app. simpl. by rewrite <- app_assoc.
Qed.

(** *** What processReleases and Run leave alone *)

Lemma processRelease_frame (release : Release) (cacheDir : string) (w : World C) :
  let w' := (processRelease fault filepath_Join release cacheDir w).2 in
  clock w' = clock w
  /\ (forall p, p <> filepath_Join cacheDir (TagName release +:+ ".txt") ->
      fs w' !! p = fs w !! p).
Proof.
  unfold processRelease. unfold_M.
  destruct (String.eqb (TagName release) EmptyString); simpl; [done|].
  pose proof (loadFromCacheOrDownload_frame fault
                (filepath_Join cacheDir (TagName release +:+ ".txt")) (TagName release)
                (add_logs ["Processing " +:+ TagName release +:+ "..."] w))
    as (Hc & Hf & _).
  destruct (loadFromCacheOrDownload _ _ _ _) as [[data|err] w1]; simpl in *.
  - destruct (ParseChecksumFile data) as [[checksums|err] warnings]; simpl; done.
  - done.
Qed.

Lemma processReleases_from_frame (releases : list Release) (cacheDir : string)
    (versions : list Version) (w : World C) :
  let w' := (processReleases_from fault filepath_Join versions releases cacheDir w).2 in
  clock w' = clock w
  /\ (forall p,
        (forall release, release ∈ releases ->
           p <> filepath_Join cacheDir (TagName release +:+ ".txt")) ->
        fs w' !! p = fs w !! p).
Proof.
  revert versions w. induction releases as [|r rs IH]; intros versions w; simpl;
    [done|].
  unfold mbind, M_bind.
  pose proof (processRelease_frame r cacheDir w) as [Hc Hf].
  destruct (processRelease fault filepath_Join r cacheDir w) as [v w1]. simpl in *.
  assert (Hrest : forall vs,
            clock (processReleases_from fault filepath_Join vs rs cacheDir w1).2
            = clock w
            /\ (forall p,
                  (forall release, release ∈ r :: rs ->
                     p <> filepath_Join cacheDir (TagName release +:+ ".txt")) ->
                  fs (processReleases_from fault filepath_Join vs rs cacheDir w1).2 !! p
                  = fs w !! p)).
  { intros vs. destruct (IH vs w1) as [Hc' Hf']. split; [congruence|].
    intros p Hp. rewrite Hf' by (intros; apply Hp; by right).
    apply Hf, Hp. by left. }
  destruct v; apply Hrest.
Qed.

(** [processReleases] changes no file but the cache files of the releases
    it is given, [<cacheDir>/<tag>.txt]. *)
Theorem processReleases_touches_cache_files_only (releases : list Release)
    (cacheDir : string) (w : World C) (p : string) :
  (forall release, release ∈ releases ->
     p <> filepath_Join cacheDir (TagName release +:+ ".txt")) ->
  fs (processReleases fault filepath_Join releases cacheDir w).2 !! p = fs w !! p.
Proof. apply processReleases_from_frame. Qed.

Lemma Run_process_cases (releases : list Release) (absCacheDir absOutputFile : string)
    (w : World C) :
  let run := Run_process fault render map_range filepath_Join releases absCacheDir
               absOutputFile w in
  let versions :=
    (processReleases fault filepath_Join releases absCacheDir
       (add_logs ["Found " +:+ itoa (Z.of_nat (length releases)) +:+ " releases"] w)).1 in
  run.1 <> Panicked
  /\ ((forall release, release ∈ releases ->
         absOutputFile <> filepath_Join absCacheDir (TagName release +:+ ".txt")) ->
      run.1 <> Returned None ->
      fs run.2 !! absOutputFile = fs w !! absOutputFile)
  /\ (run.1 = Returned None ->
      versions <> []
      /\ fs run.2 !! absOutputFile
         = Some (render (PrepareTemplateData map_range (clock w) versions))
      /\ fs run.2 !! (absOutputFile +:+ ".tmp") = None).
Proof.
  cbv zeta. unfold Run_process, processReleases. unfold_M.
  pose proof (processReleases_from_frame releases absCacheDir []
                (add_logs ["Found " +:+ itoa (Z.of_nat (length releases)) +:+ " releases"]
                   w)) as [Hclock Hframe].
  destruct (processReleases_from _ _ _ _ _ _) as [versions w1]. simpl in *.
  destruct versions as [|v versions]; simpl.
  { split; [done|]. split; [|done]. intros Hp _. by apply Hframe. }
  set (data := PrepareTemplateData map_range (clock w1) (v :: versions)).
  pose proof (GenerateStarlarkFile_effect fault render data absOutputFile
                (add_logs ["Successfully processed "
                           +:+ itoa (Z.of_nat (S (length versions))) +:+ " versions";
                           "Generating Starlark file..."] w1))
    as (_ & _ & _ & _ & Hok & Herr & _).
  rewrite add_logs_add_logs.
  destruct (GenerateStarlarkFile _ _ _ _ _) as [[err|] w2]; simpl in *.
  - split; [done|]. split; [|done]. intros Hp _.
    rewrite Herr by done. by apply Hframe.
  - split; [done|]. split; [done|]. intros _.
    destruct Hok as (Hout & Htmp & _); [done|].
    split; [done|]. unfold data in Hout. rewrite Hclock in Hout. done.
Qed.

(** When [Run] does not return nil, the output file is what it was before
    the run, provided the output path is not the path of a cache file. *)
Theorem Run_failure_keeps_output (r : Runner) (w : World C) :
  let run := Run fault render map_range filepath_IsAbs filepath_Join filepath_Dir r w in
  let absCacheDir := (resolveAbsolutePaths filepath_IsAbs filepath_Join r).1 in
  let absOutputFile := (resolveAbsolutePaths filepath_IsAbs filepath_Join r).2 in
  (forall tag, absOutputFile <> filepath_Join absCacheDir (tag +:+ ".txt")) ->
  run.1 <> Returned None ->
  fs run.2 !! absOutputFile = fs w !! absOutputFile.
Proof.
  cbv zeta. unfold Run.
  destruct (resolveAbsolutePaths filepath_IsAbs filepath_Join r) as [cd out].
  simpl. intros Hp.
  unfold os_MkdirAll, client_GetLatestReleases. unfold_M. simpl.
  destruct (fault _ (SysMkdirAll cd)); simpl; try done.
  destruct (fault _ (SysMkdirAll (filepath_Dir out))); simpl; try done.
  destruct (GetLatestReleases (client w) (Count (config r)))
    as [[[releases|err] c']|]; simpl; try done.
  intros Hrun.
  match goal with
  | |- context [Run_process _ _ _ _ ?rs ?a ?b ?w0] =>
    pose proof (Run_process_cases rs a b w0) as (_ & Hkeep & _)
  end.
  rewrite Hkeep; [done | intros; apply Hp | done].
Qed.


(** *** Releases without a tag, and panics *)

Lemma processReleases_from_empty_tags (releases : list Release) (cacheDir : string)
    (versions : list Version) (w : World C) :
  Forall (fun release => TagName release = EmptyString) releases ->
  processReleases_from fault filepath_Join versions releases cacheDir w
  = (versions,
     add_logs (replicate (length releases) "Warning: skipping release with empty tag") w).
Proof.
  clear render map_range filepath_IsAbs filepath_Dir.
  intros Hall. revert w. induction Hall as [|r rs Hr _ IH]; intros w.
  - simpl. unfold mret, M_ret, add_logs. simpl. rewrite app_nil_r. by destruct w.
  - cbn [processReleases_from]. unfold mbind, M_bind, processRelease.
    rewrite Hr. cbn [String.eqb]. unfold_M. simpl. rewrite IH.
    f_equal. unfold add_logs. simpl. by rewrite <- app_assoc.
Qed.

(** Releases without a tag are passed over: when every release has an
    empty tag, [processReleases] returns no version, logs one warning for
    each release, and calls neither the file system nor the network. *)
Theorem processReleases_skips_empty_tags (releases : list Release)
    (cacheDir : string) (w : World C) :
  Forall (fun release => TagName release = EmptyString) releases ->
  let run := processReleases fault filepath_Join releases cacheDir w in
  run.1 = []
  /\ logs run.2
     = logs w ++ replicate (length releases) "Warning: skipping release with empty tag"
  /\ events_since w run.2 = []
  /\ fs run.2 = fs w /\ client run.2 = client w.
Proof.
  intros Hall. cbv zeta. unfold processReleases.
  rewrite processReleases_from_empty_tags by done. simpl.
  repeat split; try done. unfold events_since. simpl. by rewrite drop_all.
Qed.


(** [GenerateStarlarkFile] works on two paths only, the output file and
    [<output>.tmp]: every other file is left as it was, nothing is logged,
    the client is not used, and no call is made to the network, to
    [os.Stat], [os.ReadFile], [os.WriteFile] or [os.MkdirAll]. *)
Theorem GenerateStarlarkFile_works_on_two_paths (data : TemplateData)
    (outputPath : string) (w : World C) :
  let w' := (GenerateStarlarkFile fault render data outputPath w).2 in
  (forall p, p <> outputPath -> p <> outputPath +:+ ".tmp" -> fs w' !! p = fs w !! p)
  /\ logs w' = logs w /\ client w' = client w
  /\ (forall c b, In {| call := c; ok := b |} (events_since w w') ->
      match c with
      | ApiGetLatestReleases _ | ApiDownloadAsset _ | SysMkdirAll _ | SysStat _
      | SysReadFile _ | SysWriteFile _ _ => False
      | _ => True
      end).
Proof.
  pose proof (GenerateStarlarkFile_effect fault render data outputPath w)
    as (Hc & Hl & _ & Hf & _ & _ & He).
  cbv zeta. repeat split; try done.
Qed.

(** *** The files Run works on, and its early failures *)

Lemma Run_process_frame (releases : list Release) (absCacheDir absOutputFile : string)
    (w : World C) (p : string) :
  p <> absOutputFile -> p <> absOutputFile +:+ ".tmp" ->
  (forall release, release ∈ releases ->
     p <> filepath_Join absCacheDir (TagName release +:+ ".txt")) ->
  fs (Run_process fault render map_range filepath_Join releases absCacheDir
        absOutputFile w).2 !! p = fs w !! p.
Proof.
  intros Hout Htmp Hcache. unfold Run_process, processReleases. unfold_M.
  pose proof (processReleases_from_frame releases absCacheDir []
                (add_logs ["Found " +:+ itoa (Z.of_nat (length releases)) +:+ " releases"]
                   w)) as [_ Hframe].
  destruct (processReleases_from _ _ _ _ _ _) as [versions w1]. simpl in *.
  destruct versions as [|v versions]; simpl; [by apply Hframe|].
  set (data := PrepareTemplateData map_range (clock w1) (v :: versions)).
  pose proof (GenerateStarlarkFile_effect fault render data absOutputFile
                (add_logs ["Successfully processed "
                           +:+ itoa (Z.of_nat (S (length versions))) +:+ " versions";
                           "Generating Starlark file..."] w1))
    as (_ & _ & _ & Hgen & _).
  rewrite add_logs_add_logs.
  destruct (GenerateStarlarkFile _ _ _ _ _) as [[err|] w2]; simpl in *;
    rewrite Hgen by done; by apply Hframe.
Qed.

(** [Run] changes three kinds of files and no other: the output file, the
    temporary file [<output>.tmp], and the cache files
    [<cacheDir>/<tag>.txt]. *)
Theorem Run_changes_only_its_files (r : Runner) (w : World C) (p : string) :
  let run := Run fault render map_range filepath_IsAbs filepath_Join filepath_Dir r w in
  let absCacheDir := (resolveAbsolutePaths filepath_IsAbs filepath_Join r).1 in
  let absOutputFile := (resolveAbsolutePaths filepath_IsAbs filepath_Join r).2 in
  p <> absOutputFile -> p <> absOutputFile +:+ ".tmp" ->
  (forall tag, p <> filepath_Join absCacheDir (tag +:+ ".txt")) ->
  fs run.2 !! p = fs w !! p.
Proof.
  cbv zeta. unfold Run.
  destruct (resolveAbsolutePaths filepath_IsAbs filepath_Join r) as [cd out].
  simpl. intros Hout Htmp Hcache.
  unfold os_MkdirAll, client_GetLatestReleases. unfold_M. simpl.
  destruct (fault _ (SysMkdirAll cd)); simpl; try done.
  destruct (fault _ (SysMkdirAll (filepath_Dir out))); simpl; try done.
  destruct (GetLatestReleases (client w) (Count (config r)))
    as [[[releases|err] c']|]; simpl; try done.
  rewrite Run_process_frame; [done | done | done | intros; apply Hcache].
Qed.

(** When the cache directory cannot be made, [Run] returns that error at
    once: the one call it has made is the failed [os.MkdirAll]; GitHub is
    not asked and no file is changed. *)
Theorem Run_stops_when_cache_directory_fails (r : Runner) (w : World C) :
  let run := Run fault render map_range filepath_IsAbs filepath_Join filepath_Dir r w in
  let absCacheDir := (resolveAbsolutePaths filepath_IsAbs filepath_Join r).1 in
  fault (trace w) (SysMkdirAll absCacheDir) <> NoFault ->
  run.1 = Returned (Some ("failed to create cache directory: " +:+ EIO))
  /\ events_since w run.2 = [{| call := SysMkdirAll absCacheDir; ok := false |}]
  /\ fs run.2 = fs w /\ client run.2 = client w.
Proof.
  cbv zeta. unfold Run.
  destruct (resolveAbsolutePaths filepath_IsAbs filepath_Join r) as [cd out].
  simpl. intros Hf. unfold os_MkdirAll. unfold_M. simpl.
  destruct (fault _ (SysMkdirAll cd)); simpl; try done;
    (repeat split; try done); apply events_since_app; reflexivity.
Qed.

(** When listing the releases fails, [Run] returns an error, changes no
    file and downloads nothing; with both directories made, the error is
    the client's, wrapped. *)
Theorem Run_fetch_failure_changes_nothing (r : Runner) (w : World C)
    (err : string) (c' : C) :
  let run := Run fault render map_range filepath_IsAbs filepath_Join filepath_Dir r w in
  GetLatestReleases (client w) (Count (config r)) = Some (Err err, c') ->
  (exists e, run.1 = Returned (Some e))
  /\ fs run.2 = fs w
  /\ (forall url b,
        ~ In {| call := ApiDownloadAsset url; ok := b |} (events_since w run.2))
  /\ (In {| call := ApiGetLatestReleases (Count (config r)); ok := false |}
         (events_since w run.2) ->
      run.1 = Returned (Some ("failed to fetch releases: " +:+ err))).
Proof.
  cbv zeta. unfold Run.
  destruct (resolveAbsolutePaths filepath_IsAbs filepath_Join r) as [cd out].
  simpl. intros Hg. unfold os_MkdirAll, client_GetLatestReleases. unfold_M. simpl.
  destruct (fault _ (SysMkdirAll cd)); simpl;
    [destruct (fault _ (SysMkdirAll (filepath_Dir out))); simpl; rewrite ?Hg; simpl | |];
    (split; [eauto|]); (split; [done|]); trace_norm;
    (split; [intros url b; simpl; naive_solver | simpl; naive_solver]).
Qed.

End UpdaterFurther.

(** * The claims at concrete inputs *)

(** C3 fails where two lines name one platform: both pass the filters and
    extract, and the mapping has one entry. *)
Lemma C3_counterexample :
  is_Ok (ParseChecksumFile duplicate_manifest).1 = true
  /\ size (returned_map (ParseChecksumFile duplicate_manifest).1) = 1%nat
  /\ (count_pass duplicate_manifest - count_fail duplicate_manifest)%nat = 2%nat.
Proof. vm_compute. auto. Qed.

Lemma scans_duplicate_manifest : scans duplicate_manifest.
Proof. vm_compute. repeat constructor. Qed.

Lemma C3_witness :
  scans duplicate_manifest
  /\ size (returned_map (ParseChecksumFile duplicate_manifest).1)
     = length (remove_dups (accepted_platforms duplicate_manifest)).
Proof.
  split; [exact scans_duplicate_manifest|].
  exact (proj1 (C3_entries_are_distinct_platforms duplicate_manifest
                  scans_duplicate_manifest)).
Defined.

(** C4 fails on one line of 65536 bytes held in memory. *)
Lemma C4_counterexample :
  ParseChecksumFile long_line
  = (Err "error reading checksum file: bufio.Scanner: token too long", []).
Proof. vm_compute. reflexivity. Qed.

Lemma C6_witness :
  returned_map (ParseChecksumFile upper_manifest).1 !! darwin_amd64 = Some hash_upper
  /\ len hash_upper = 64%nat
  /\ string_all is_hex hash_upper = true.
Proof.
  assert (Hl : returned_map (ParseChecksumFile upper_manifest).1 !! darwin_amd64
               = Some hash_upper) by (vm_compute; reflexivity).
  pose proof (C6_stored_hashes_are_valid upper_manifest darwin_amd64 hash_upper Hl)
    as (H1 & H2 & _).
  exact (conj Hl (conj H1 H2)).
Defined.

(** C10 fails where a line too long for the scanner follows the two lines
    for one platform: an error is returned, and no mapping. *)
Lemma C10_counterexample :
  take 2 (bufio.raw_lines duplicate_then_long) = [line_a; line_b]
  /\ line_entry line_a = Some (linux_amd64, hash_a)
  /\ line_entry line_b = Some (linux_amd64, hash_b)
  /\ is_Ok (ParseChecksumFile duplicate_then_long).1 = false
  /\ returned_map (ParseChecksumFile duplicate_then_long).1 !! linux_amd64 = None.
Proof. repeat split; vm_compute; reflexivity. Qed.

Lemma C10_witness :
  exists m, (ParseChecksumFile duplicate_manifest).1 = Ok m
            /\ m !! linux_amd64 = Some hash_b.
Proof.
  refine (proj1 (C10_last_line_wins duplicate_manifest [line_a] [] line_b
                   linux_amd64 hash_b scans_duplicate_manifest _ _ _)).
  - vm_compute. reflexivity.
  - vm_compute. reflexivity.
  - intros l h' Hin. by apply elem_of_nil in Hin.
Defined.

(** C5 fails on a file name with text before the tool name, and on one
    with text after the extension: neither has the anchored shape, both
    yield a platform. *)
Lemma C5_counterexample :
  (ExtractPlatformFromFilename prefixed_filename = Ok linux_amd64
   /\ ~ anchored_shape prefixed_filename)
  /\ (ExtractPlatformFromFilename suffixed_filename = Ok linux_amd64
      /\ ~ anchored_shape suffixed_filename).
Proof.
  split; split; try (vm_compute; reflexivity).
  - intros (ver & os & arch & ext & Heq & _). discriminate Heq.
  - intros (ver & os & arch & ext & Heq & _ & _ & _ & He).
    apply (f_equal string_last) in Heq.
    assert (Hne : ext <> EmptyString) by (by destruct He as [-> | ->]).
    rewrite !string_last_app in Heq by (repeat apply app_not_empty_r; done).
    by destruct He as [-> | ->].
Qed.

Lemma range_order_listed : range_order range_listed.
Proof. intros K EqK CK V m. reflexivity. Qed.

Lemma range_order_reversed : range_order range_reversed.
Proof. intros K EqK CK V m. apply reverse_Permutation. Qed.

Example SortedArchKeys_sample :
  SortedArchKeys range_listed archs1 = ["386"; "amd64"; "arm64"; "armv6"; "armv7"]
  /\ SortedArchKeys range_reversed archs2 = ["386"; "amd64"; "arm64"; "armv6"; "armv7"].
Proof. split; vm_compute; reflexivity. Qed.

Example SortedOSKeys_sample :
  SortedOSKeys range_reversed oses1 = ["darwin"; "freebsd"; "linux"; "windows"].
Proof. vm_compute. reflexivity. Qed.

Lemma C2_witness :
  SortedArchKeys range_listed archs1 = SortedArchKeys range_reversed archs2
  /\ SortedOSKeys range_listed oses1 = SortedOSKeys range_reversed oses2.
Proof.
  pose proof (C2_sorted_keys_are_the_keys_ascending range_listed range_reversed
                archs1 archs2 oses1 oses2 range_order_listed range_order_reversed)
    as (_ & _ & Ha & Ho).
  split; [apply Ha | apply Ho]; vm_compute; reflexivity.
Defined.

(** C1 fails where template execution breaks off and the removal of the
    temporary file fails as well: the error is returned, the old output is
    intact, and the temporary file stays, holding what was written. *)
Lemma C1_counterexample :
  let run := GenerateStarlarkFile fault_execute_and_remove render_default sample_data
               "/out/versions.bzl" (world_of cached_files NewMockGitHubClient) in
  run.1 = Some "failed to execute template: template: execution error"
  /\ fs run.2 !! "/out/versions.bzl" = Some "old"
  /\ fs run.2 !! "/out/versions.bzl.tmp" = Some "# Code generated".
Proof. vm_compute. auto. Qed.

Example GenerateStarlarkFile_replaces_output :
  let run := GenerateStarlarkFile no_fault render_default sample_data
               "/out/versions.bzl" (world_of cached_files NewMockGitHubClient) in
  run.1 = None
  /\ fs run.2 !! "/out/versions.bzl" = Some "DEFAULT_VERSION = v2.6.1"
  /\ fs run.2 !! "/out/versions.bzl.tmp" = None.
Proof. vm_compute. auto. Qed.

Lemma C8_witness :
  (loadFromCacheOrDownload no_fault "/cache/v2.6.1.txt" "v2.6.1"
     (world_of cached_files NewMockGitHubClient)).1 = Ok (line_b +:+ nl).
Proof.
  refine (proj1 (C8_cache_hit_never_downloads no_fault "/cache/v2.6.1.txt" "v2.6.1"
                   (line_b +:+ nl) (world_of cached_files NewMockGitHubClient)
                   _ _ _)).
  - vm_compute. reflexivity.
  - reflexivity.
  - reflexivity.
Defined.

(** Of three releases one fails to download: two versions, in order, the
    second with no checksums. *)
Example processReleases_one_download_fails :
  (processReleases no_fault join_slash (Releases mock_three) "/cache"
     (world_of ∅ mock_three)).1
  = [ {| Tag := "v2.6.1"; Checksums := {[ linux_amd64 := hash_a ]} |};
      {| Tag := "v2.5.0"; Checksums := ∅ |} ].
Proof. vm_compute. reflexivity. Qed.

(** The cache is used before the network: no asset is configured, the run
    succeeds and renders. *)
Example Run_cache_hit :
  let run := Run no_fault render_default range_listed is_abs_slash join_slash dir_out
               (NewRunner sample_config)
               (world_of cached_files (AddRelease "v2.6.1" NewMockGitHubClient)) in
  run.1 = Returned None
  /\ fs run.2 !! "/out/versions.bzl" = Some "DEFAULT_VERSION = v2.6.1".
Proof. vm_compute. auto. Qed.

Example Run_no_versions :
  (Run no_fault render_default range_listed is_abs_slash join_slash dir_out
     (NewRunner sample_config) (world_of ∅ mock_offline)).1
  = Returned (Some "no versions were successfully processed").
Proof. vm_compute. reflexivity. Qed.

(** * The further properties at concrete inputs *)

Lemma loadFromCacheOrDownload_download_fails_witness :
  (loadFromCacheOrDownload no_fault "/cache/v2.6.1.txt" "v2.6.1"
     (world_of ∅ mock_offline)).1
  = Err "failed to download checksum file: network timeout".
Proof.
  refine (proj1 (loadFromCacheOrDownload_download_fails no_fault "/cache/v2.6.1.txt"
                   "v2.6.1" (world_of ∅ mock_offline) "network timeout" _ _)).
  - left. reflexivity.
  - reflexivity.
Defined.

Lemma loadFromCacheOrDownload_download_succeeds_witness :
  (loadFromCacheOrDownload no_fault "/cache/v2.6.1.txt" "v2.6.1"
     (world_of ∅ mock_three)).1 = Ok (line_a +:+ nl).
Proof.
  refine (proj1 (loadFromCacheOrDownload_download_succeeds no_fault "/cache/v2.6.1.txt"
                   "v2.6.1" (world_of ∅ mock_three) (line_a +:+ nl) _ _)).
  - left. reflexivity.
  - vm_compute. reflexivity.
Defined.

Lemma loadFromCacheOrDownload_second_call_hits_witness :
  (loadFromCacheOrDownload no_fault "/cache/v2.6.1.txt" "v2.6.1"
     (loadFromCacheOrDownload no_fault "/cache/v2.6.1.txt" "v2.6.1"
        (world_of ∅ mock_three)).2).1 = Ok (line_a +:+ nl).
Proof.
  refine (proj1 (loadFromCacheOrDownload_second_call_hits no_fault "/cache/v2.6.1.txt"
                   "v2.6.1" (world_of ∅ mock_three) (line_a +:+ nl) _ _ _ _ _)).
  - left. reflexivity.
  - vm_compute. reflexivity.
  - vm_compute. auto.
  - reflexivity.
  - reflexivity.
Defined.

Lemma processReleases_touches_cache_files_only_witness :
  fs (processReleases no_fault join_slash (Releases mock_three) "/cache"
        (world_of cached_files mock_three)).2 !! "/out/versions.bzl" = Some "old".
Proof.
  refine (processReleases_touches_cache_files_only no_fault join_slash
            (Releases mock_three) "/cache" (world_of cached_files mock_three)
            "/out/versions.bzl" _).
  intros release Hin. unfold join_slash. discriminate.
Defined.

Lemma processReleases_skips_empty_tags_witness :
  (processReleases no_fault join_slash [{| TagName := "" |}; {| TagName := "" |}]
     "/cache" (world_of ∅ mock_offline)).1 = [].
Proof.
  refine (proj1 (processReleases_skips_empty_tags no_fault join_slash
                   [{| TagName := "" |}; {| TagName := "" |}] "/cache"
                   (world_of ∅ mock_offline) _)).
  repeat constructor.
Defined.

Lemma Run_failure_keeps_output_witness :
  fs (Run no_fault render_default range_listed is_abs_slash join_slash dir_out
        (NewRunner sample_config) (world_of {[ "/out/versions.bzl" := "old" ]} mock_offline)).2
    !! "/out/versions.bzl" = Some "old".
Proof.
  refine (Run_failure_keeps_output no_fault render_default range_listed is_abs_slash
            join_slash dir_out (NewRunner sample_config)
            (world_of {[ "/out/versions.bzl" := "old" ]} mock_offline) _ _).
  - intros tag Heq. apply (f_equal (string_take 2)) in Heq. vm_compute in Heq.
    congruence.
  - vm_compute. discriminate.
Defined.


Lemma Run_changes_only_its_files_witness :
  fs (Run no_fault render_default range_listed is_abs_slash join_slash dir_out
        (NewRunner sample_config)
        (world_of {[ "/ws/README.md" := "read me" ]} mock_three)).2 !! "/ws/README.md"
  = Some "read me".
Proof.
  refine (Run_changes_only_its_files no_fault render_default range_listed is_abs_slash
            join_slash dir_out (NewRunner sample_config)
            (world_of {[ "/ws/README.md" := "read me" ]} mock_three)
            "/ws/README.md" _ _ _).
  - vm_compute. discriminate.
  - vm_compute. discriminate.
  - intros tag Heq. apply (f_equal (string_take 2)) in Heq. vm_compute in Heq.
    congruence.
Defined.

Lemma Run_stops_when_cache_directory_fails_witness :
  (Run fault_mkdir render_default range_listed is_abs_slash join_slash dir_out
     (NewRunner sample_config) (world_of ∅ mock_three)).1
  = Returned (Some "failed to create cache directory: input/output error").
Proof.
  refine (proj1 (Run_stops_when_cache_directory_fails fault_mkdir render_default
                   range_listed is_abs_slash join_slash dir_out
                   (NewRunner sample_config) (world_of ∅ mock_three) _)).
  vm_compute. discriminate.
Defined.

Lemma Run_fetch_failure_changes_nothing_witness :
  fs (Run no_fault render_default range_listed is_abs_slash join_slash dir_out
        (NewRunner sample_config) (world_of cached_files mock_rate_limited)).2
  = cached_files.
Proof.
  refine (proj1 (proj2 (Run_fetch_failure_changes_nothing no_fault render_default
                          range_listed is_abs_slash join_slash dir_out
                          (NewRunner sample_config)
                          (world_of cached_files mock_rate_limited)
                          "rate limit exceeded" mock_rate_limited _))).
  reflexivity.
Defined.


Lemma organizePlatformsByOS_round_trip_witness :
  nested_lookup
    (organizePlatformsByOS range_reversed
       {[ linux_amd64 := hash_a; darwin_amd64 := hash_b ]}) "darwin" "amd64"
  = Some hash_b.
Proof.
  rewrite (proj1 (organizePlatformsByOS_round_trip range_reversed
                    {[ linux_amd64 := hash_a; darwin_amd64 := hash_b ]}
                    range_order_reversed) "darwin" "amd64").
  vm_compute. reflexivity.
Defined.

Lemma PrepareTemplateData_order_independent_witness :
  PrepareTemplateData range_listed "2025-11-11T00:00:00Z"
    [{| Tag := "v2.6.1";
        Checksums := {[ linux_amd64 := hash_a; darwin_amd64 := hash_b ]} |}]
  = PrepareTemplateData range_reversed "2025-11-11T00:00:00Z"
      [{| Tag := "v2.6.1";
          Checksums := {[ linux_amd64 := hash_a; darwin_amd64 := hash_b ]} |}].
Proof.
  exact (PrepareTemplateData_order_independent range_listed range_reversed
           "2025-11-11T00:00:00Z"
           [{| Tag := "v2.6.1";
               Checksums := {[ linux_amd64 := hash_a; darwin_amd64 := hash_b ]} |}]
           range_order_listed range_order_reversed).
Defined.

Lemma PrepareTemplateData_keeps_versions_witness :
  length (Versions (PrepareTemplateData range_reversed "2025-11-11T00:00:00Z"
                      [{| Tag := "v2.6.1"; Checksums := {[ linux_amd64 := hash_a ]} |};
                       {| Tag := "v2.5.0"; Checksums := ∅ |}]))
  = 2%nat.
Proof.
  exact (proj1 (proj2 (PrepareTemplateData_keeps_versions range_reversed
                         "2025-11-11T00:00:00Z"
                         [{| Tag := "v2.6.1"; Checksums := {[ linux_amd64 := hash_a ]} |};
                          {| Tag := "v2.5.0"; Checksums := ∅ |}]
                         range_order_reversed))).
Defined.

Lemma ExtractPlatformFromFilename_well_shaped_witness :
  ExtractPlatformFromFilename "golangci-lint-2.6.1-linux-amd64.tar.gz" = Ok linux_amd64.
Proof.
  apply (ExtractPlatformFromFilename_well_shaped "2.6.1" "linux" "amd64" "tar.gz" "");
    try (split; [done | reflexivity]).
  by left.
Defined.

Lemma ParseChecksumFile_of_two_parts_witness :
  (ParseChecksumFile (line_a +:+ nl +:+ line_b +:+ nl)).2
  = (ParseChecksumFile (line_a +:+ nl)).2 ++ (ParseChecksumFile (line_b +:+ nl)).2.
Proof.
  refine (proj2 (ParseChecksumFile_of_two_parts line_a (line_b +:+ nl)
                   {[ linux_amd64 := hash_a ]} _)).
  vm_compute. reflexivity.
Defined.

Lemma ParseChecksumFile_reads_well_formed_line_witness :
  ParseChecksumFile (manifest_line hash_a (archive_name "2.6.1" "linux" "amd64" "tar.gz")
                     +:+ nl)
  = (Ok {[ linux_amd64 := hash_a ]}, []).
Proof.
  apply (ParseChecksumFile_reads_well_formed_line hash_a "2.6.1" "linux" "amd64" "tar.gz");
    try (split; [done | reflexivity]).
  - reflexivity.
  - by left.
  - vm_compute. reflexivity.
Defined.

Lemma Mock_DownloadAsset_round_trip_witness :
  (Mock_DownloadAsset (AddAsset "https://example.com/checksums.txt" "content"
                         NewMockGitHubClient)
     "https://example.com/checksums.txt").1 = Ok "content".
Proof.
  exact (proj1 (Mock_DownloadAsset_round_trip NewMockGitHubClient
                  "https://example.com/checksums.txt" "content" eq_refl)).
Defined.
